(** * Review toolkit: chunked content reader and review-session engine

    A shallow embedding of
      - [src/utils/count-token.ts]    (the token estimator, both the per-line
        and the whole-text variant),
      - [src/utils/file-content.ts]   (the chunked content reader),
      - [src/utils/review-session.ts] (the session store),
      - [src/index.ts]                (the tool handlers of the engine, and
        the command line),
      - [src/utils/list-files.ts]     (file discovery),
    followed by the properties of the specification that concern them.

    Conventions.
      - JavaScript numbers that hold counts and line indices are integers
        here ([Z]); the one place where the code produces [NaN] (adding
        [undefined] to a number) is modelled by [jsnum].
      - The tokenizer ([tiktoken]) and [path.join] are external: they are
        section variables; so are [path.extname], the list of binary
        extensions, [trim] and the matcher of the [ignore] package.
      - The session directory is a finite map from session id to record,
        and the project index a finite map from project folder to id;
        a record that is missing or does not parse is absent from the map.
        Keys are ordinary names: no session is asked for under the name
        of the index file, and no project folder is the name of a member
        of [Object.prototype].
      - [new Date().toISOString()], the generated session id and the result
        of file discovery are inputs of the operation that consumes them. *)

From Stdlib Require Import ZArith String Ascii List Lia Bool.
From stdpp Require Import base option list gmap strings.

Local Open Scope string_scope.
Local Open Scope Z_scope.

(** ** JavaScript values the code relies on *)

(** A number that may have become [NaN]. *)
Inductive jsnum : Type :=
| Num (z : Z)
| NaN.

(** [a[i]] on an array of numbers: [undefined] outside the array. *)
Definition js_index (a : list Z) (i : Z) : option Z :=
  if i <? 0 then None else a !! Z.to_nat i.

(** [x += v] where [v] may be [undefined]: [number + undefined] is [NaN]. *)
Definition js_add (x : jsnum) (v : option Z) : jsnum :=
  match x, v with
  | Num a, Some b => Num (a + b)
  | _, _ => NaN
  end.

(** [x < t]: every comparison with [NaN] is false. *)
Definition js_lt (x : jsnum) (t : Z) : bool :=
  match x with
  | Num a => a <? t
  | NaN => false
  end.

(** [Array.prototype.slice]'s treatment of a relative index. *)
Definition rel_index (len k : Z) : Z :=
  if k <? 0 then Z.max (len + k) 0 else Z.min k len.

(** [a.slice(start, end)]; an [undefined] start counts as 0. *)
Definition slice {A : Type} (a : list A) (start : option Z) (stop : Z) : list A :=
  let len := Z.of_nat (length a) in
  let k := rel_index len (default 0 start) in
  let final := rel_index len stop in
  take (Z.to_nat (final - k)) (drop (Z.to_nat k) a).

(** [s.split("\n")]: never empty, the empty string gives one empty line. *)
Fixpoint split_lines (s : string) : list string :=
  match s with
  | EmptyString => [EmptyString]
  | String c rest =>
      if Ascii.eqb c "010"%char then EmptyString :: split_lines rest
      else match split_lines rest with
           | [] => [String c EmptyString]
           | l :: ls => String c l :: ls
           end
  end.

(** [lines.join("\n")]. *)
Definition join_lines (ls : list string) : string :=
  String.concat (String "010"%char EmptyString) ls.

(** ** Stand-ins for the external functions, used to run the model

    One token per character, and joining with a slash. *)
Definition char_encode (text : string) : list nat :=
  map nat_of_ascii (list_ascii_of_string text).

Definition slash_join (root filePath : string) : string :=
  (root ++ "/" ++ filePath)%string.

(** ** Data model *)

(** *** Chunks (file-content.ts) *)

(** The files on disk: contents by full path; [None] when the file is
    missing or unreadable. *)
Definition Disk : Type := string -> option string.

Record Chunk : Type := mkChunk {
  content : string;
  endLine : Z;
  isEnded : bool
}.

Inductive ReadResult : Type :=
| ReadOk (c : Chunk)
| ReadRejected          (* readFile rejects: the promise is rejected *)
| ReadDiverges.         (* the loop did not leave within its fuel *)

(** *** Sessions (review-session.ts) *)

Record ReviewFile : Type := mkReviewFile {
  path : string;
  reviewed : bool;
  feedback : string;
  agentReview : option string;
  tokenCount : option Z
}.

Record ReviewSession : Type := mkReviewSession {
  id : string;
  projectFolder : string;
  files : list ReviewFile;
  createdAt : string;
  updatedAt : string;
  totalTokenCount : Z;
  currentSessionTokenCount : Z;
  tokenLimit : Z;
  completed : bool
}.

(** The sessions directory: [<id>.json] records and [project-index.json]. *)
Record Store : Type := mkStore {
  sessions : gmap string ReviewSession;
  projectIndex : gmap string string
}.

(** *** Tool calls and their answers (index.ts) *)

Inductive ListFilesMode : Type :=
| ModeGlob
| ModeChanged
| ModeStaged
| ModeResume.

Inductive ErrorKind : Type :=
| NoSessionForKey        (* "No session found for the provided key" *)
| SessionNotFound        (* "Session not found" *)
| FailedReset            (* "Failed to reset session token count" *)
| GlobRequired           (* "Glob pattern is required when mode is 'glob'" *)
| NoSessionToResume      (* "No session found to resume ..." *)
| ListingFailed          (* "Error listing files: ..." *)
| NoFilesFound           (* "No files found to review. ..." *)
| UpdateFailed           (* "Failed to update file review. Session or file not found." *)
| CompleteFailed.        (* "Failed to complete session" *)

(** The JSON answer of a handler, by its [status] and the fields the
    properties below talk about. *)
Inductive Response : Type :=
| Resumed (s : ReviewSession)
| Created (s : ReviewSession)
| Failure (e : ErrorKind)
| TokenLimitExceededAllReviewed (count limit : Z)
| TokenLimitExceeded (count limit : Z) (pendingFiles : nat)
| AllFilesReviewed
| NextFile (filePath : string)
| Submitted (s : ReviewSession) (exceedsTokenLimit : bool)
| CannotComplete (pendingCount reviewedCount totalFiles : nat)
| Completed (s : ReviewSession).

(** A tool call, with what it reads from its environment: the time, the
    session id it would generate, what file discovery would list, and the
    files on disk. *)
Inductive Op : Type :=
| OpStart (now newId : string) (listing : option (list string))
    (projectRoot : string) (mode : ListFilesMode) (glob : option string)
    (fileList : option (list string)) (limit : option Z)
    (forceNew : option bool)
| OpNext (key : string)
| OpSubmit (disk : Disk) (now key filePath review : string)
    (projectRoot : option string)
| OpComplete (now key : string).

(** ** Sample data for running the model *)

(** A disk holding one file of ten lines, ten characters each. *)
Definition ten_lines : string :=
  join_lines (replicate 10 "aaaaaaaaaa").

Definition ten_line_disk : Disk :=
  fun p => if String.eqb p "/repo/ten.txt" then Some ten_lines else None.

(** A disk on which nothing can be read. *)
Definition no_disk : Disk := fun _ => None.

(** Start a session on two files. *)
Definition start_ab : Op :=
  OpStart "t0" "s1" None "/p" ModeGlob None (Some ["a.ts"; "b.ts"]) (Some 100) None.

Definition submit_a (now review : string) : Op :=
  OpSubmit no_disk now "s1" "a.ts" review None.

Definition submit_b (now review : string) : Op :=
  OpSubmit no_disk now "/p" "b.ts" review None.

(** Stand-ins for the externals of file discovery: the extension from the
    last dot on, one binary extension, blanks-only trimming, and an ignore
    matcher that ignores the one path its pattern text names. *)
Fixpoint last_dot (s : string) : option string :=
  match s with
  | EmptyString => None
  | String c rest =>
      match last_dot rest with
      | Some e => Some e
      | None => if Ascii.eqb c "."%char then Some s else None
      end
  end.

Definition dot_extname (s : string) : string := default "" (last_dot s).

Definition png_only : list string := ["png"].

Fixpoint all_spaces (s : string) : bool :=
  match s with
  | EmptyString => true
  | String c rest => Ascii.eqb c " "%char && all_spaces rest
  end.

Definition blank_trim (s : string) : string :=
  if all_spaces s then "" else s.

Definition exact_ignores (patterns p : string) : bool := String.eqb patterns p.

(** A disk whose [.gitignore] under [/repo] names [b.ts]. *)
Definition gitignore_disk : Disk :=
  fun p => if String.eqb p "/repo/.gitignore" then Some "b.ts" else None.

(** ** Token estimator and chunked content reader *)

Section Toolkit.

(** [encoding.encode] of the fixed tokenizer model. *)
Variable encode : string -> list nat.

(** [path.join]. *)
Variable path_join : string -> string -> string.

(** count-token.ts, whole-text variant (used by review-session.ts). *)
Definition countToken (text : string) : Z :=
  Z.of_nat (length (encode text)).

(** count-token.ts, per-line variant (used by file-content.ts). *)
Definition countToken_lines (text : string) : list Z :=
  map (fun line => Z.of_nat (length (encode line))) (split_lines text).

(** The [while] loop of [getEndline]; [None] when [fuel] iterations did
    not reach the exit. *)
Fixpoint getEndline_loop (fuel : nat) (lineTokens : list Z) (token : Z)
    (endLine : Z) (currentToken : jsnum) : option Z :=
  match fuel with
  | O => None
  | S fuel' =>
      if js_lt currentToken token then
        getEndline_loop fuel' lineTokens token (endLine + 1)
          (js_add currentToken (js_index lineTokens endLine))
      else Some endLine
  end.

(** The loop leaves after at most [length lineTokens + 1] additions. *)
Definition getEndline_fuel (lineTokens : list Z) : nat :=
  S (S (length lineTokens)).

Definition getEndline (startLine : Z) (lineTokens : list Z) (token : Z)
    : option Z :=
  getEndline_loop (getEndline_fuel lineTokens) lineTokens token startLine (Num 0).

Definition getFileContentByPath (disk : Disk) (root filePath : string)
    : option string :=
  disk (path_join root filePath).

Definition getFileContent (disk : Disk) (root filePath : string) (token : Z)
    (startLine : option Z) : ReadResult :=
  match getFileContentByPath disk root filePath with
  | None => ReadRejected
  | Some text =>
      let lineTokens := countToken_lines text in
      match getEndline (default 0 startLine) lineTokens token with
      | None => ReadDiverges
      | Some e =>
          let ended := e =? Z.of_nat (length lineTokens) in
          let contentByLine := slice (split_lines text) startLine e in
          ReadOk {| content := join_lines contentByLine;
                    endLine := e;
                    isEnded := ended |}
      end
  end.

(** Follow-up calls with the same budget: call 0 starts at line 0, each
    later call at the [endLine] the call before returned. *)
Fixpoint follow_up (disk : Disk) (root filePath : string) (token : Z)
    (n : nat) : ReadResult :=
  match n with
  | O => getFileContent disk root filePath token (Some 0)
  | S n' =>
      match follow_up disk root filePath token n' with
      | ReadOk c => getFileContent disk root filePath token (Some (endLine c))
      | r => r
      end
  end.

(** ** Session store (review-session.ts) *)

(** Truthiness of an optional string: [undefined] and [""] are falsy. *)
Definition truthy (o : option string) : bool :=
  match o with
  | Some s => negb (String.eqb s "")
  | None => false
  end.

Definition saveProjectSessionIndex (st : Store) (projectFolder sessionId : string)
    : Store :=
  {| sessions := sessions st;
     projectIndex := <[projectFolder := sessionId]> (projectIndex st) |}.

(** [index[projectFolder] || null] *)
Definition getSessionIdForProject (st : Store) (projectFolder : string)
    : option string :=
  match projectIndex st !! projectFolder with
  | Some sessionId => if truthy (Some sessionId) then Some sessionId else None
  | None => None
  end.

Definition set_updatedAt (now : string) (s : ReviewSession) : ReviewSession :=
  {| id := id s; projectFolder := projectFolder s; files := files s;
     createdAt := createdAt s; updatedAt := now;
     totalTokenCount := totalTokenCount s;
     currentSessionTokenCount := currentSessionTokenCount s;
     tokenLimit := tokenLimit s; completed := completed s |}.

(** [saveSession] stamps [updatedAt] on the object it was given and writes
    the record under the object's own [id]. *)
Definition saveSession (st : Store) (now : string) (session : ReviewSession)
    : Store * ReviewSession :=
  let session' := set_updatedAt now session in
  ({| sessions := <[id session' := session']> (sessions st);
      projectIndex := projectIndex st |}, session').

Definition getSession (st : Store) (sessionId : string) : option ReviewSession :=
  sessions st !! sessionId.

Definition newReviewFile (file : string) : ReviewFile :=
  {| path := file; reviewed := false; feedback := "";
     agentReview := None; tokenCount := None |}.

(** The session object [createSession] builds. *)
Definition newSession (now sessionId projectFolder : string)
    (fileList : list string) (limit : Z) : ReviewSession :=
  let reviewFiles := map newReviewFile fileList in
  {| id := sessionId; projectFolder := projectFolder; files := reviewFiles;
     createdAt := now; updatedAt := now;
     totalTokenCount := 0; currentSessionTokenCount := 0;
     tokenLimit := limit; completed := false |}.

Definition createSession (st : Store) (now sessionId : string)
    (projectFolder : string) (fileList : list string) (limit : Z)
    : Store * ReviewSession :=
  let session := newSession now sessionId projectFolder fileList limit in
  let '(st1, session1) := saveSession st now session in
  (saveProjectSessionIndex st1 projectFolder sessionId, session1).

(** [files.reduce((sum, file) => sum + (file.tokenCount || 0), 0)] *)
Definition sumTokenCounts (fs : list ReviewFile) : Z :=
  foldl (fun sum file => sum + default 0 (tokenCount file)) 0 fs.

(** [files.findIndex(f => f.path === filePath)], [-1] being [None]. *)
Definition findIndex (filePath : string) (fs : list ReviewFile)
    : option (nat * ReviewFile) :=
  list_find (fun f => path f = filePath) fs.

(** The token cost [updateFileReview] attributes to a submission:
    [fileTokens + feedbackTokens + agentReviewTokens]. *)
Definition currentFileTokens (fileContent fb : string) (review : option string)
    : Z :=
  let fileTokens := countToken fileContent in
  let feedbackTokens := countToken fb in
  let agentReviewTokens :=
    if truthy review then countToken (default "" review) else 0 in
  fileTokens + feedbackTokens + agentReviewTokens.

(** The assignments to [session.files[fileIndex]]. *)
Definition reviewFile (f : ReviewFile) (isReviewed : bool) (fb : string)
    (review : option string) (tokens : Z) : ReviewFile :=
  {| path := path f; reviewed := isReviewed; feedback := fb;
     agentReview := if truthy review then review else agentReview f;
     tokenCount := Some tokens |}.

(** The session object after the entry and both counters are updated. *)
Definition recordReview (session : ReviewSession) (fileIndex : nat)
    (f' : ReviewFile) (tokens : Z) : ReviewSession :=
  let files' := <[fileIndex := f']> (files session) in
  {| id := id session; projectFolder := projectFolder session;
     files := files';
     createdAt := createdAt session; updatedAt := updatedAt session;
     totalTokenCount := sumTokenCounts files';
     currentSessionTokenCount := currentSessionTokenCount session + tokens;
     tokenLimit := tokenLimit session;
     completed := completed session |}.

(** [None] is the [null] result; nothing has been written then. *)
Definition updateFileReview (st : Store) (now : string)
    (sessionId filePath fileContent : string) (isReviewed : bool)
    (fb : string) (review : option string)
    : option (Store * ReviewSession) :=
  match getSession st sessionId with
  | None => None
  | Some session =>
      match findIndex filePath (files session) with
      | None => None
      | Some (fileIndex, f) =>
          let tokens := currentFileTokens fileContent fb review in
          let f' := reviewFile f isReviewed fb review tokens in
          Some (saveSession st now (recordReview session fileIndex f' tokens))
      end
  end.

(** [session.files.find(file => !file.reviewed)] *)
Definition getNextFileToReview (st : Store) (sessionId : string)
    : option ReviewFile :=
  match getSession st sessionId with
  | None => None
  | Some session => snd <$> list_find (fun f => reviewed f = false) (files session)
  end.

(** [session.completed = true] *)
Definition markCompleted (session : ReviewSession) : ReviewSession :=
  {| id := id session; projectFolder := projectFolder session;
     files := files session;
     createdAt := createdAt session; updatedAt := updatedAt session;
     totalTokenCount := totalTokenCount session;
     currentSessionTokenCount := currentSessionTokenCount session;
     tokenLimit := tokenLimit session; completed := true |}.

Definition completeSession (st : Store) (now sessionId : string)
    : option (Store * ReviewSession) :=
  match getSession st sessionId with
  | None => None
  | Some session => Some (saveSession st now (markCompleted session))
  end.

(** [session.currentSessionTokenCount = 0] *)
Definition resetWindow (session : ReviewSession) : ReviewSession :=
  {| id := id session; projectFolder := projectFolder session;
     files := files session;
     createdAt := createdAt session; updatedAt := updatedAt session;
     totalTokenCount := totalTokenCount session;
     currentSessionTokenCount := 0;
     tokenLimit := tokenLimit session; completed := completed session |}.

Definition resetSessionTokenCount (st : Store) (now sessionId : string)
    : option (Store * ReviewSession) :=
  match getSession st sessionId with
  | None => None
  | Some session => Some (saveSession st now (resetWindow session))
  end.

(** ** Tool handlers (index.ts) *)

(** [files.filter(f => !f.reviewed).length] and its complement. *)
Definition pendingCount (fs : list ReviewFile) : nat :=
  length (filter (fun f => reviewed f = false) fs).

Definition reviewedCount (fs : list ReviewFile) : nat :=
  length (filter (fun f => reviewed f = true) fs).

(** The prologue every keyed handler repeats: the key is a session id if a
    record of that name exists, otherwise a project root looked up in the
    index. *)
Definition resolve_key (st : Store) (key : string) : option string :=
  match getSession st key with
  | Some _ => Some key
  | None => getSessionIdForProject st key
  end.

(** The block both resume branches of start-review-session share:
    [None] when control falls through to session creation. *)
Definition resume_existing (st : Store) (now projectRoot : string)
    : option (Store * Response) :=
  match getSessionIdForProject st projectRoot with
  | None => None
  | Some existingSessionId =>
      match getSession st existingSessionId with
      | None => None
      | Some existingSession =>
          if completed existingSession then None
          else match resetSessionTokenCount st now existingSessionId with
               | Some (st', session) => Some (st', Resumed session)
               | None => Some (st, Failure FailedReset)
               end
      end
  end.

Definition is_resume (mode : ListFilesMode) : bool :=
  match mode with ModeResume => true | _ => false end.

(** [!files || files.length === 0] *)
Definition no_files (fileList : option (list string)) : bool :=
  match fileList with
  | Some (_ :: _) => false
  | _ => true
  end.

(** start-review-session.  [newId] is the id the call would generate and
    [listing] what file discovery would return ([None]: it throws). *)
Definition start_review_session (st : Store) (now newId : string)
    (listing : option (list string))
    (projectRoot : string) (mode : ListFilesMode) (glob : option string)
    (fileList : option (list string)) (limit : option Z)
    (forceNewOpt : option bool) : Store * Response :=
  let limit := default 10000 limit in
  let forceNew := default false forceNewOpt in
  let resumed :=
    if is_resume mode && negb forceNew
    then resume_existing st now projectRoot else None in
  match resumed with
  | Some r => r
  | None =>
      let existing :=
        if negb forceNew && negb (is_resume mode)
        then resume_existing st now projectRoot else None in
      match existing with
      | Some r => r
      | None =>
          let discovered : Response + list string :=
            if no_files fileList then
              let listed :=
                match listing with
                | None => inl (Failure ListingFailed)
                | Some l =>
                    if no_files (Some l) then inl (Failure NoFilesFound)
                    else inr l
                end in
              match mode with
              | ModeGlob =>
                  if truthy glob then listed else inl (Failure GlobRequired)
              | ModeChanged => listed
              | ModeStaged => listed
              | ModeResume => inl (Failure NoSessionToResume)
              end
            else inr (default [] fileList) in
          match discovered with
          | inl r => (st, r)
          | inr l =>
              let '(st', session) := createSession st now newId projectRoot l limit in
              (st', Created session)
          end
      end
  end.

Definition get_next_review_file (st : Store) (key : string) : Response :=
  match resolve_key st key with
  | None => Failure NoSessionForKey
  | Some sessionId =>
      match getSession st sessionId with
      | None => Failure SessionNotFound
      | Some session =>
          if currentSessionTokenCount session >? tokenLimit session then
            let pendingFiles := pendingCount (files session) in
            if Nat.eqb pendingFiles 0
            then TokenLimitExceededAllReviewed
                   (currentSessionTokenCount session) (tokenLimit session)
            else TokenLimitExceeded
                   (currentSessionTokenCount session) (tokenLimit session)
                   pendingFiles
          else
            match getNextFileToReview st sessionId with
            | None => AllFilesReviewed
            | Some nextFile => NextFile (path nextFile)
            end
      end
  end.

(** submit-file-review.  The handler hands its [agentReview] argument to
    [updateFileReview] in the position of the feedback text and passes no
    sixth argument. *)
Definition submit_file_review (st : Store) (disk : Disk) (now : string)
    (key filePath review : string) (projectRoot : option string)
    : Store * Response :=
  let root := if truthy projectRoot then default "" projectRoot else key in
  match resolve_key st key with
  | None => (st, Failure NoSessionForKey)
  | Some sessionId =>
      let fileContent := default "" (disk (path_join root filePath)) in
      match updateFileReview st now sessionId filePath fileContent true review None with
      | None => (st, Failure UpdateFailed)
      | Some (st', updatedSession) =>
          let exceedsTokenLimit :=
            currentSessionTokenCount updatedSession >? tokenLimit updatedSession in
          (st', Submitted updatedSession exceedsTokenLimit)
      end
  end.

Definition complete_review_session (st : Store) (now key : string)
    : Store * Response :=
  match resolve_key st key with
  | None => (st, Failure NoSessionForKey)
  | Some sessionId =>
      match getSession st sessionId with
      | None => (st, Failure SessionNotFound)
      | Some session =>
          let pendingFiles := pendingCount (files session) in
          if Nat.ltb 0 pendingFiles then
            (st, CannotComplete pendingFiles (reviewedCount (files session))
                   (length (files session)))
          else
            match completeSession st now sessionId with
            | None => (st, Failure CompleteFailed)
            | Some (st', completedSession) => (st', Completed completedSession)
            end
      end
  end.

(** ** Sequences of tool calls *)

Definition step (st : Store) (o : Op) : Store * Response :=
  match o with
  | OpStart now newId listing projectRoot mode glob fileList limit forceNew =>
      start_review_session st now newId listing projectRoot mode glob
        fileList limit forceNew
  | OpNext key => (st, get_next_review_file st key)
  | OpSubmit disk now key filePath review projectRoot =>
      submit_file_review st disk now key filePath review projectRoot
  | OpComplete now key => complete_review_session st now key
  end.

(** A generated id ([session_<time>_<random>]) names no stored record. *)
Definition fresh_id (st : Store) (o : Op) : Prop :=
  match o with
  | OpStart _ newId _ _ _ _ _ _ _ => sessions st !! newId = None
  | _ => True
  end.

(** [trace st ops st']: running [ops] from [st], every generated id being
    fresh when it is generated, ends in [st']. *)
Inductive trace : Store -> list Op -> Store -> Prop :=
| trace_nil st : trace st [] st
| trace_cons st o ops st' :
    fresh_id st o -> trace (fst (step st o)) ops st' -> trace st (o :: ops) st'.

Definition run (st : Store) (ops : list Op) : Store :=
  foldl (fun s o => fst (step s o)) st ops.

(** Every id generated along [ops] is fresh when it is generated. *)
Fixpoint fresh_run (st : Store) (ops : list Op) : Prop :=
  match ops with
  | [] => True
  | o :: rest => fresh_id st o /\ fresh_run (fst (step st o)) rest
  end.

Definition empty_store : Store :=
  {| sessions := ∅; projectIndex := ∅ |}.

(** ** Auxiliary notions for the properties *)

(** Where the loop stands: lines left before the index leaves the array. *)
Definition lines_left (lineTokens : list Z) (e : Z) : nat :=
  if e <? 0 then O else Z.to_nat (Z.of_nat (length lineTokens) - e).


(** Every record is stored under its own id. *)
Definition store_wf (st : Store) : Prop :=
  forall k s, sessions st !! k = Some s -> id s = k.

(** A property of every stored session. *)
Definition store_all (P : ReviewSession -> Prop) (st : Store) : Prop :=
  forall k s, sessions st !! k = Some s -> P s.

(** [totalTokenCount] is the sum of the entries' [tokenCount]. *)
Definition total_is_sum (s : ReviewSession) : Prop :=
  totalTokenCount s = sumTokenCounts (files s).

(** [written st o s']: tool call [o], run in [st], saves the session
    object [s'] (before [saveSession] stamps it). *)
Inductive written (st : Store) : Op -> ReviewSession -> Prop :=
| written_created now newId listing projectRoot mode glob fileList limit
    forceNew l :
    written st
      (OpStart now newId listing projectRoot mode glob fileList limit forceNew)
      (newSession now newId projectRoot l (default 10000 limit))
| written_resumed now newId listing projectRoot mode glob fileList limit
    forceNew sessionId s :
    sessions st !! sessionId = Some s ->
    completed s = false ->
    written st
      (OpStart now newId listing projectRoot mode glob fileList limit forceNew)
      (resetWindow s)
| written_submitted disk now key filePath review projectRoot sessionId s i f tokens :
    resolve_key st key = Some sessionId ->
    sessions st !! sessionId = Some s ->
    findIndex filePath (files s) = Some (i, f) ->
    tokens = currentFileTokens
               (default ""
                  (disk (path_join
                           (if truthy projectRoot then default "" projectRoot else key)
                           filePath)))
               review None ->
    written st (OpSubmit disk now key filePath review projectRoot)
      (recordReview s i (reviewFile f true review None tokens) tokens)
| written_completed now key sessionId s :
    resolve_key st key = Some sessionId ->
    sessions st !! sessionId = Some s ->
    pendingCount (files s) = O ->
    written st (OpComplete now key) (markCompleted s).

(** The time stamp a tool call uses. *)
Definition op_now (o : Op) : string :=
  match o with
  | OpStart now _ _ _ _ _ _ _ _ => now
  | OpNext _ => ""
  | OpSubmit _ now _ _ _ _ => now
  | OpComplete now _ => now
  end.

(** A session that lists path [p] at [j] and at an earlier place, the
    entry at [j] being unreviewed. *)
Definition has_pending_duplicate (p : string) (j : nat) (s : ReviewSession)
    : Prop :=
  exists i fi fj,
    (i < j)%nat /\ files s !! i = Some fi /\ files s !! j = Some fj /\
    path fi = p /\ path fj = p /\ reviewed fj = false.

(** A completed session has no unreviewed file. *)
Definition completed_all_reviewed (s : ReviewSession) : Prop :=
  completed s = true -> pendingCount (files s) = O.

(** The session and entry a submission updates, if it succeeds. *)
Definition submit_target (st : Store) (o : Op) : option (string * nat) :=
  match o with
  | OpSubmit _ _ key filePath _ _ =>
      match resolve_key st key with
      | None => None
      | Some sessionId =>
          match getSession st sessionId with
          | None => None
          | Some s =>
              match findIndex filePath (files s) with
              | None => None
              | Some (i, _) => Some (sessionId, i)
              end
          end
      end
  | _ => None
  end.

(** The token cost of a submission. *)
Definition submit_tokens (o : Op) : Z :=
  match o with
  | OpSubmit disk _ key filePath review projectRoot =>
      currentFileTokens
        (default ""
           (disk (path_join
                    (if truthy projectRoot then default "" projectRoot else key)
                    filePath)))
        review None
  | _ => 0
  end.

(** The [tokenCount] of entry [j] of the session stored under [sessionId]. *)
Definition stored_tokenCount (st : Store) (sessionId : string) (j : nat)
    : option (option Z) :=
  match getSession st sessionId with
  | None => None
  | Some s => tokenCount <$> files s !! j
  end.

(** ** Further notions: the reader *)

(** The token cost of a run of lines. *)
Definition sum_tokens (ts : list Z) : Z := foldr Z.add 0 ts.

(** The lines [from, to) of a token list. *)
Definition tokens_between (lineTokens : list Z) (from to : nat) : list Z :=
  take (to - from) (drop from lineTokens).

(** ** Further handlers (index.ts) *)



(** The answer of get-file-review. *)
Inductive FileReview : Type :=
| FileReviewFailed (e : ErrorKind)
| FileNotInSession                 (* "File not found in session" *)
| FileReviewed (filePath : string) (isReviewed : bool)
    (review fb : string).

(** get-file-review, in the version that also returns the feedback:
    [agentReview || ""] and [feedback || ""] of the first entry with the
    path. *)
Definition get_file_review (st : Store) (key filePath : string) : FileReview :=
  match resolve_key st key with
  | None => FileReviewFailed NoSessionForKey
  | Some sessionId =>
      match getSession st sessionId with
      | None => FileReviewFailed SessionNotFound
      | Some session =>
          match list_find (fun f => path f = filePath) (files session) with
          | None => FileNotInSession
          | Some (_, fileInfo) =>
              FileReviewed (path fileInfo) (reviewed fileInfo)
                (default "" (agentReview fileInfo)) (feedback fileInfo)
          end
      end
  end.

(** submit-file-review, in the version that takes the user's feedback and
    the agent's review and hands both to [updateFileReview]. *)
Definition submit_file_review_feedback (st : Store) (disk : Disk) (now : string)
    (key filePath fb review : string) (projectRoot : option string)
    : Store * Response :=
  let root := if truthy projectRoot then default "" projectRoot else key in
  match resolve_key st key with
  | None => (st, Failure NoSessionForKey)
  | Some sessionId =>
      let fileContent := default "" (disk (path_join root filePath)) in
      match updateFileReview st now sessionId filePath fileContent true fb
              (Some review) with
      | None => (st, Failure UpdateFailed)
      | Some (st', updatedSession) =>
          let exceedsTokenLimit :=
            currentSessionTokenCount updatedSession >? tokenLimit updatedSession in
          (st', Submitted updatedSession exceedsTokenLimit)
      end
  end.

(** ** Further notions: the engine *)

(** What every tool call keeps of a stored session: its identity, its
    list of paths, and the progress made. *)
Definition evolves (s s' : ReviewSession) : Prop :=
  id s' = id s /\
  projectFolder s' = projectFolder s /\
  createdAt s' = createdAt s /\
  tokenLimit s' = tokenLimit s /\
  map path (files s') = map path (files s) /\
  (completed s = true -> completed s' = true) /\
  (forall j f, files s !! j = Some f -> reviewed f = true ->
               exists f', files s' !! j = Some f' /\ reviewed f' = true).

(** No count of a session is negative. *)
Definition counts_nonneg (s : ReviewSession) : Prop :=
  0 <= totalTokenCount s /\
  0 <= currentSessionTokenCount s /\
  (forall f t, f ∈ files s -> tokenCount f = Some t -> 0 <= t).

(** The two token-limit answers of get-next-review-file. *)
Definition is_limit_status (r : Response) : bool :=
  match r with
  | TokenLimitExceededAllReviewed _ _ => true
  | TokenLimitExceeded _ _ _ => true
  | _ => false
  end.

(** The answers that report a change: resumed, created, submitted,
    completed. *)
Definition is_success (r : Response) : bool :=
  match r with
  | Resumed _ | Created _ | Submitted _ _ | Completed _ => true
  | _ => false
  end.

(** One submission per path, in list order. *)
Definition submit_each (disk : Disk) (now key review : string)
    (projectRoot : option string) (paths : list string) : list Op :=
  map (fun p => OpSubmit disk now key p review projectRoot) paths.

(** ** File discovery (list-files.ts) *)

(** [path.extname], the list of the [binary-extensions] package,
    [String.prototype.trim], and the matcher of the [ignore] package:
    [ignores patterns p] tells whether an instance built from the text
    [patterns] ignores the path [p]. *)
Variable extname : string -> string.
Variable binaryExtensions : list string.
Variable trim : string -> string.
Variable ignores : string -> string -> bool.

(** [s.slice(1)] on a string. *)
Definition slice1 (s : string) : string :=
  match s with
  | EmptyString => EmptyString
  | String _ rest => rest
  end.

(** [self.indexOf(x)], [-1] being [None]. *)
Definition indexOf (x : string) (self : list string) : option nat :=
  fst <$> list_find (fun y => y = x) self.

Definition filterUnique (file : string) (index : nat) (self : list string) : bool :=
  bool_decide (indexOf file self = Some index).

Definition filterBinaryFile (file : string) : bool :=
  let extension := slice1 (extname file) in
  negb (bool_decide (extension ∈ binaryExtensions)).

Definition filterEmptyFile (file : string) : bool :=
  negb (String.eqb (trim file) "").

(** [Array.prototype.filter] with a callback that also takes the index and
    the array. *)
Fixpoint filter_from {A : Type} (keep : A -> nat -> list A -> bool)
    (self : list A) (index : nat) (l : list A) : list A :=
  match l with
  | [] => []
  | x :: rest =>
      if keep x index self then x :: filter_from keep self (S index) rest
      else filter_from keep self (S index) rest
  end.

Definition filter_indexed {A : Type} (keep : A -> nat -> list A -> bool)
    (self : list A) : list A :=
  filter_from keep self O self.

(** The module variables [ig] and [igRoot]: the root the last instance was
    built for, and the patterns it was built from. *)
Definition IgnoreCache : Type := option (string * string).

Definition getIgnoreInstance (cache : IgnoreCache) (disk : Disk) (root : string)
    : IgnoreCache * string :=
  let load :=
    let patterns := default "" (disk (path_join root ".gitignore")) in
    (Some (root, patterns), patterns) in
  match cache with
  | Some (igRoot, patterns) =>
      if String.eqb igRoot root then (cache, patterns) else load
  | None => load
  end.

Definition normalizeFilePath (cache : IgnoreCache) (disk : Disk)
    (fileList : list string) (root : option string)
    : IgnoreCache * list string :=
  let filtered :=
    filter (fun f => filterEmptyFile f = true)
      (filter_indexed filterUnique
         (filter (fun f => filterBinaryFile f = true) fileList)) in
  if truthy root then
    let '(cache', patterns) := getIgnoreInstance cache disk (default "" root) in
    (cache', filter (fun f => ignores patterns f = false) filtered)
  else (cache, filtered).

(** What [git.status()] reports, as far as [listFiles] reads it. *)
Record GitStatus : Type := mkGitStatus {
  modified : list string;
  created : list string;
  not_added : list string;
  staged : list string
}.

(** [listFiles]: [globResult] is what [glob] finds and [status] what
    [git.status()] reports; [None] stands for the thrown error. *)
Definition listFiles (cache : IgnoreCache) (disk : Disk)
    (globResult : list string) (status : GitStatus)
    (root : string) (mode : ListFilesMode) (globPattern : option string)
    : IgnoreCache * option (list string) :=
  match mode with
  | ModeGlob =>
      if truthy globPattern then
        let '(cache', l) := normalizeFilePath cache disk globResult (Some root) in
        (cache', Some l)
      else (cache, None)
  | ModeChanged =>
      let '(cache', l) :=
        normalizeFilePath cache disk
          (modified status ++ created status ++ not_added status)%list (Some root) in
      (cache', Some l)
  | ModeStaged =>
      let '(cache', l) := normalizeFilePath cache disk (staged status) (Some root) in
      (cache', Some l)
  | ModeResume => (cache, None)
  end.

(** ** Command line (index.ts) *)

(** [s.split(sep)] for a one-character separator. *)
Fixpoint split_on (sep : ascii) (s : string) : list string :=
  match s with
  | EmptyString => [EmptyString]
  | String c rest =>
      if Ascii.eqb c sep then EmptyString :: split_on sep rest
      else match split_on sep rest with
           | [] => [String c EmptyString]
           | l :: ls => String c l :: ls
           end
  end.

(** [arg.substring(2)] *)
Definition substring2 (s : string) : string := slice1 (slice1 s).

(** The body of the [forEach] in [parseArgs].  Assigning a text to the
    key [__proto__] of an object literal stores nothing. *)
Definition parseArg (parsedArgs : gmap string string) (arg : string)
    : gmap string string :=
  if String.prefix "--" arg then
    match split_on "="%char (substring2 arg) with
    | key :: value :: _ =>
        if truthy (Some key) && truthy (Some value) then
          if String.eqb key "__proto__" then parsedArgs
          else <[key := value]> parsedArgs
        else parsedArgs
    | _ => parsedArgs
    end
  else parsedArgs.

(** [parseArgs], on [process.argv]. *)
Definition parseArgs (argv : list string) : gmap string string :=
  foldl parseArg ∅ (drop 2 argv).


(** [c] occurs in [s]. *)
Fixpoint has_char (c : ascii) (s : string) : bool :=
  match s with
  | EmptyString => false
  | String d rest => Ascii.eqb d c || has_char c rest
  end.

(** Nothing, or an equals sign and anything after it. *)
Definition cut_off (tail : string) : Prop :=
  tail = "" \/ exists rest, tail = String "="%char rest.

(** * Properties *)

(** ** The chunked content reader *)

Lemma js_index_Some lineTokens e v :
  js_index lineTokens e = Some v ->
  0 <= e < Z.of_nat (length lineTokens).
Proof.
  unfold js_index. destruct (Z.ltb_spec e 0) as [Hneg|Hpos]; [discriminate|].
  intros Hl. apply lookup_lt_Some in Hl. lia.
Qed.

Lemma js_index_ge lineTokens e :
  Z.of_nat (length lineTokens) <= e -> js_index lineTokens e = None.
Proof.
  intros H. unfold js_index. destruct (Z.ltb_spec e 0); [done|].
  apply lookup_ge_None. lia.
Qed.

(** The loop always leaves: once the index is outside the array the
    running total is [NaN] and the guard fails. *)
Lemma getEndline_loop_total fuel lineTokens token e cur :
  (lines_left lineTokens e + 2 <= fuel)%nat ->
  is_Some (getEndline_loop fuel lineTokens token e cur).
Proof.
  revert e cur. induction fuel as [|fuel IH]; intros e cur Hfuel; [lia|].
  simpl. destruct (js_lt cur token); [|eauto].
  destruct cur as [a|].
  - destruct (js_index lineTokens e) as [v|] eqn:Hidx; simpl.
    + apply IH. apply js_index_Some in Hidx.
      unfold lines_left in *.
      destruct (Z.ltb_spec e 0); [lia|].
      destruct (Z.ltb_spec (e + 1) 0); lia.
    + destruct fuel; [lia|]. simpl. eauto.
  - destruct fuel; [lia|]. simpl. eauto.
Qed.

Lemma getEndline_total startLine lineTokens token :
  is_Some (getEndline startLine lineTokens token).
Proof.
  apply getEndline_loop_total. unfold getEndline_fuel, lines_left.
  destruct (Z.ltb_spec startLine 0); lia.
Qed.

(** Started at or past the end with a positive budget, the loop adds
    [undefined] once and returns the line after its start. *)
Lemma getEndline_past_end startLine lineTokens token :
  Z.of_nat (length lineTokens) <= startLine -> 0 < token ->
  getEndline startLine lineTokens token = Some (startLine + 1).
Proof.
  intros Hge Htok. unfold getEndline, getEndline_fuel. simpl.
  destruct (Z.ltb_spec 0 token); [|lia].
  rewrite js_index_ge by done. reflexivity.
Qed.

Lemma length_countToken_lines text :
  length (countToken_lines text) = length (split_lines text).
Proof. unfold countToken_lines. apply length_map. Qed.

(** C1. For every readable file and every [startLine] the reader returns
    a chunk, and the chunk's [isEnded] is true exactly when its [endLine]
    equals the number of newline-split lines of the file's content. *)
Theorem getFileContent_isEnded_iff disk root filePath token startLine text :
  getFileContentByPath disk root filePath = Some text ->
  exists c,
    getFileContent disk root filePath token startLine = ReadOk c /\
    (isEnded c = true <-> endLine c = Z.of_nat (length (split_lines text))).
Proof.
  intros Hread. unfold getFileContent. rewrite Hread.
  destruct (getEndline_total (default 0 startLine) (countToken_lines text) token)
    as [e He].
  rewrite He. eexists; split; [reflexivity|]. simpl.
  rewrite length_countToken_lines. apply Z.eqb_eq.
Qed.

(** What a call returns once the file is read and the loop has left. *)
Lemma getFileContent_endLine disk root filePath token startLine text e :
  getFileContentByPath disk root filePath = Some text ->
  getEndline (default 0 startLine) (countToken_lines text) token = Some e ->
  exists c,
    getFileContent disk root filePath token startLine = ReadOk c /\
    endLine c = e /\
    isEnded c = (e =? Z.of_nat (length (countToken_lines text))).
Proof.
  intros Hread He. unfold getFileContent. rewrite Hread, He.
  eexists; split; [reflexivity|]. split; reflexivity.
Qed.

(** C7. On a 10-line file whose lines cost 10 tokens each, with budget 35:
    the first call returns [endLine = 4], not ended; the follow-up from
    line 4 returns 8; the one from line 8 adds lines 8 and 9 (total 20,
    still below 35), reads past the array and returns [endLine = 11];
    every later call returns its start plus one.  No call returns
    [endLine = 10] and none reports [isEnded]. *)
Theorem follow_up_overshoots disk root filePath text :
  getFileContentByPath disk root filePath = Some text ->
  countToken_lines text = replicate 10 10 ->
  (exists c, follow_up disk root filePath 35 0 = ReadOk c /\
             endLine c = 4 /\ isEnded c = false) /\
  (exists c, follow_up disk root filePath 35 1 = ReadOk c /\
             endLine c = 8 /\ isEnded c = false) /\
  (forall n, exists c, follow_up disk root filePath 35 (2 + n) = ReadOk c /\
             endLine c = 11 + Z.of_nat n /\ isEnded c = false).
Proof.
  intros Hread Htok.
  assert (Hcall : forall s e, getEndline s (replicate 10 10) 35 = Some e ->
            exists c, getFileContent disk root filePath 35 (Some s) = ReadOk c /\
                      endLine c = e /\ isEnded c = (e =? 10)).
  { intros s e He.
    destruct (getFileContent_endLine disk root filePath 35 (Some s) text e Hread)
      as (c & Hc & He' & Hend).
    - rewrite Htok. exact He.
    - exists c. rewrite Htok in Hend. auto. }
  assert (H0 : exists c, follow_up disk root filePath 35 0 = ReadOk c /\
                         endLine c = 4 /\ isEnded c = false).
  { destruct (Hcall 0 4) as (c & Hc & He & Hend); [reflexivity|].
    exists c. simpl. rewrite Hend. auto. }
  assert (H1 : exists c, follow_up disk root filePath 35 1 = ReadOk c /\
                         endLine c = 8 /\ isEnded c = false).
  { destruct H0 as (c0 & Hc0 & He0 & _).
    destruct (Hcall 4 8) as (c & Hc & He & Hend); [reflexivity|].
    exists c. simpl in *. rewrite Hc0, He0, Hend. auto. }
  split; [exact H0|]. split; [exact H1|].
  induction n as [|n IH].
  - destruct H1 as (c1 & Hc1 & He1 & _).
    destruct (Hcall 8 11) as (c & Hc & He & Hend); [reflexivity|].
    exists c. simpl in *. rewrite Hc1, He1, Hend. auto.
  - destruct IH as (cn & Hcn & Hen & _).
    destruct (Hcall (11 + Z.of_nat n) (11 + Z.of_nat n + 1))
      as (c & Hc & He & Hend).
    { apply getEndline_past_end; [simpl; lia | lia]. }
    exists c. replace (2 + S n)%nat with (S (2 + n)) by lia.
    cbn [follow_up]. rewrite Hcn, Hen, Hc. split; [reflexivity|].
    split; [lia|]. rewrite Hend. apply Z.eqb_neq. lia.
Qed.

(** ** Lists of review files *)

Lemma pendingCount_zero fs :
  pendingCount fs = O <-> (forall f, f ∈ fs -> reviewed f = true).
Proof.
  unfold pendingCount. induction fs as [|g fs IH].
  - split; [intros _ f Hf; inversion Hf | done].
  - rewrite filter_cons. destruct (decide (reviewed g = false)) as [Hg|Hg].
    + split; [discriminate|]. intros Hall.
      rewrite (Hall g) in Hg by left. discriminate.
    + rewrite IH. split.
      * intros Hall f Hf. apply elem_of_cons in Hf as [->|Hf]; [|auto].
        destruct (reviewed g); [done|congruence].
      * intros Hall f Hf. apply Hall. by right.
Qed.

Lemma pendingCount_pos fs :
  (0 < pendingCount fs)%nat <-> (exists f, f ∈ fs /\ reviewed f = false).
Proof.
  split.
  - unfold pendingCount. induction fs as [|g fs IH]; simpl; [lia|].
    rewrite filter_cons. destruct (decide (reviewed g = false)) as [Hg|Hg].
    + intros _. exists g. split; [left|done].
    + intros Hpos. destruct (IH Hpos) as (f & Hf & Hrev).
      exists f. split; [by right|done].
  - intros (f & Hf & Hrev).
    destruct (pendingCount fs) eqn:E; [|lia].
    rewrite pendingCount_zero in E. rewrite (E f Hf) in Hrev. discriminate.
Qed.

(** ** Next file *)

(** C2. Over budget ([currentSessionTokenCount > tokenLimit]) the answer
    is the token-limit-exceeded status with the pending count when some
    file is unreviewed, and the all-reviewed variant when none is; within
    budget it is the first unreviewed file in list order, or the
    all-files-reviewed status when every file is reviewed. *)
Theorem get_next_review_file_spec st key sessionId s :
  resolve_key st key = Some sessionId ->
  getSession st sessionId = Some s ->
  (currentSessionTokenCount s > tokenLimit s ->
     ((exists f, f ∈ files s /\ reviewed f = false) ->
        (0 < pendingCount (files s))%nat /\
        get_next_review_file st key =
          TokenLimitExceeded (currentSessionTokenCount s) (tokenLimit s)
            (pendingCount (files s))) /\
     ((forall f, f ∈ files s -> reviewed f = true) ->
        get_next_review_file st key =
          TokenLimitExceededAllReviewed (currentSessionTokenCount s) (tokenLimit s))) /\
  (currentSessionTokenCount s <= tokenLimit s ->
     (forall i f,
        files s !! i = Some f -> reviewed f = false ->
        (forall j g, (j < i)%nat -> files s !! j = Some g -> reviewed g = true) ->
        get_next_review_file st key = NextFile (path f)) /\
     ((forall f, f ∈ files s -> reviewed f = true) ->
        get_next_review_file st key = AllFilesReviewed)).
Proof.
  intros Hres Hget. unfold get_next_review_file. rewrite Hres, Hget.
  rewrite Z.gtb_ltb. split.
  - intros Hover. destruct (Z.ltb_spec (tokenLimit s) (currentSessionTokenCount s));
      [|lia]. split.
    + intros Hex. apply pendingCount_pos in Hex. split; [done|].
      destruct (Nat.eqb_spec (pendingCount (files s)) 0); [lia|done].
    + intros Hall. apply pendingCount_zero in Hall. by rewrite Hall.
  - intros Hwithin. destruct (Z.ltb_spec (tokenLimit s) (currentSessionTokenCount s));
      [lia|]. unfold getNextFileToReview. rewrite Hget. split.
    + intros i f Hi Hrev Hbefore.
      assert (Hfind : list_find (fun f => reviewed f = false) (files s) = Some (i, f)).
      { apply list_find_Some. split; [done|]. split; [done|].
        intros j g Hj Hlt Hg. rewrite (Hbefore j g Hlt Hj) in Hg. discriminate. }
      by rewrite Hfind.
    + intros Hall.
      assert (Hfind : list_find (fun f => reviewed f = false) (files s) = None).
      { apply list_find_None. apply Forall_forall. intros f Hf Hrev.
        rewrite (Hall f Hf) in Hrev. discriminate. }
      by rewrite Hfind.
Qed.

(** ** What a tool call writes *)

Lemma resume_existing_effect st now projectRoot st' r :
  resume_existing st now projectRoot = Some (st', r) ->
  exists sessionId s,
    getSessionIdForProject st projectRoot = Some sessionId /\
    sessions st !! sessionId = Some s /\ completed s = false /\
    st' = fst (saveSession st now (resetWindow s)) /\
    r = Resumed (snd (saveSession st now (resetWindow s))).
Proof.
  unfold resume_existing, resetSessionTokenCount, getSession.
  destruct (getSessionIdForProject st projectRoot) as [sid|]; [|discriminate].
  destruct (sessions st !! sid) as [s|] eqn:Hs; [|discriminate].
  destruct (completed s) eqn:Hc; [discriminate|].
  intros [= <- <-]. exists sid, s. auto.
Qed.

(** Every tool call either leaves the session records alone or saves
    exactly one session object, under that object's id. *)
Lemma step_effect st o :
  sessions (fst (step st o)) = sessions st \/
  exists s', written st o s' /\
             sessions (fst (step st o)) =
               <[id s' := set_updatedAt (op_now o) s']> (sessions st).
Proof.
  destruct o as [now newId listing projectRoot mode glob fileList limit forceNew
                | key | disk now key filePath review projectRoot | now key]; simpl.
  - unfold start_review_session.
    assert (Hres : forall (b : bool) st' r,
              (if b then resume_existing st now projectRoot else None) = Some (st', r) ->
              exists s', written st
                (OpStart now newId listing projectRoot mode glob fileList limit forceNew) s' /\
                sessions st' = <[id s' := set_updatedAt now s']> (sessions st)).
    { intros b st' r Hb. destruct b; [|discriminate].
      apply resume_existing_effect in Hb as (sid & s & _ & Hs & Hc & -> & _).
      exists (resetWindow s). split; [|reflexivity].
      eapply written_resumed; eauto. }
    destruct (if is_resume mode && negb (default false forceNew)
              then resume_existing st now projectRoot else None)
      as [[st1 r1]|] eqn:E1.
    { right. simpl. eapply Hres; eauto. }
    destruct (if negb (default false forceNew) && negb (is_resume mode)
              then resume_existing st now projectRoot else None)
      as [[st2 r2]|] eqn:E2.
    { right. simpl. eapply Hres; eauto. }
    match goal with
    | |- context [match ?d with inl _ => _ | inr _ => _ end] => destruct d as [r|l]
    end; [by left|].
    right. exists (newSession now newId projectRoot l (default 10000 limit)).
    split; [constructor|reflexivity].
  - by left.
  - unfold submit_file_review, updateFileReview, getSession.
    destruct (resolve_key st key) as [sid|] eqn:Hres; [|by left].
    destruct (sessions st !! sid) as [s|] eqn:Hs; [|by left].
    destruct (findIndex filePath (files s)) as [[i f]|] eqn:Hfind; [|by left].
    right. eexists. split; [eapply written_submitted; eauto|reflexivity].
  - unfold complete_review_session, completeSession, getSession.
    destruct (resolve_key st key) as [sid|] eqn:Hres; [|by left].
    destruct (sessions st !! sid) as [s|] eqn:Hs; [|by left].
    destruct (Nat.ltb_spec 0 (pendingCount (files s))); [by left|].
    right. exists (markCompleted s). split; [|reflexivity].
    eapply written_completed; eauto. lia.
Qed.

(** ** Invariants of the store *)

Lemma trace_invariant (P : Store -> Prop) st ops st' :
  (forall st0 o, fresh_id st0 o -> P st0 -> P (fst (step st0 o))) ->
  trace st ops st' -> P st -> P st'.
Proof.
  intros Hstep Htr. induction Htr as [st|st o ops st' Hfresh _ IH]; [done|].
  intros HP. apply IH. by apply Hstep.
Qed.

Lemma trace_run ops st : fresh_run st ops -> trace st ops (run st ops).
Proof.
  revert st. induction ops as [|o ops IH]; intros st; simpl.
  - constructor.
  - intros [Hfresh Hrest]. constructor; [done|]. by apply IH.
Qed.

Lemma step_store_wf st o : store_wf st -> store_wf (fst (step st o)).
Proof.
  intros Hwf. destruct (step_effect st o) as [E|(s' & _ & E)];
    unfold store_wf; rewrite E; [done|].
  intros k s. destruct (decide (id s' = k)) as [<-|Hne].
  - rewrite lookup_insert_eq. by intros [= <-].
  - rewrite lookup_insert_ne by done. apply Hwf.
Qed.

Lemma empty_store_wf : store_wf empty_store.
Proof. intros k s. unfold empty_store. simpl. by rewrite lookup_empty. Qed.

Lemma trace_store_wf st ops st' :
  trace st ops st' -> store_wf st -> store_wf st'.
Proof.
  apply (trace_invariant store_wf). intros st0 o _. apply step_store_wf.
Qed.

(** *** The sum of the entries' token counts *)

Lemma foldl_add_shift (fs : list ReviewFile) (a : Z) :
  foldl (fun sum file => sum + default 0 (tokenCount file)) a fs =
  a + sumTokenCounts fs.
Proof.
  unfold sumTokenCounts. revert a. induction fs as [|f fs IH]; intros a; simpl.
  - lia.
  - rewrite IH. rewrite (IH (0 + _)). lia.
Qed.

Lemma sumTokenCounts_cons f fs :
  sumTokenCounts (f :: fs) = default 0 (tokenCount f) + sumTokenCounts fs.
Proof. unfold sumTokenCounts at 1. simpl. apply foldl_add_shift. Qed.

Lemma sumTokenCounts_new l : sumTokenCounts (map newReviewFile l) = 0.
Proof.
  induction l as [|x l IH]; [reflexivity|].
  simpl map. rewrite sumTokenCounts_cons, IH. reflexivity.
Qed.

(** Replacing one entry replaces its share of the sum. *)
Lemma sumTokenCounts_insert fs i f f' :
  fs !! i = Some f ->
  sumTokenCounts (<[i := f']> fs) =
  sumTokenCounts fs - default 0 (tokenCount f) + default 0 (tokenCount f').
Proof.
  revert i. induction fs as [|g fs IH]; intros i Hi; [done|].
  destruct i as [|i]; simpl in *.
  - injection Hi as ->. rewrite !sumTokenCounts_cons. lia.
  - rewrite !sumTokenCounts_cons, (IH i Hi). lia.
Qed.

Lemma written_total_is_sum st o s' :
  store_all total_is_sum st -> written st o s' -> total_is_sum s'.
Proof.
  intros Hall Hw. unfold total_is_sum.
  destruct Hw as [| ? ? ? ? ? ? ? ? ? sid s Hs _
                  | ? ? ? ? ? ? sid s i f tokens _ Hs _ _
                  | ? ? sid s _ Hs _]; simpl.
  - by rewrite sumTokenCounts_new.
  - apply (Hall _ _ Hs).
  - reflexivity.
  - apply (Hall _ _ Hs).
Qed.

Lemma step_total_is_sum st o :
  store_all total_is_sum st -> store_all total_is_sum (fst (step st o)).
Proof.
  intros Hall. destruct (step_effect st o) as [E|(s' & Hw & E)];
    unfold store_all; rewrite E; [done|].
  intros k s. destruct (decide (id s' = k)) as [<-|Hne].
  - rewrite lookup_insert_eq. intros [= <-].
    apply (written_total_is_sum _ _ _ Hall Hw).
  - rewrite lookup_insert_ne by done. apply Hall.
Qed.

Lemma trace_total_is_sum ops st :
  trace empty_store ops st -> store_all total_is_sum st.
Proof.
  intros Htr. apply (trace_invariant (store_all total_is_sum) _ _ _
                       (fun st0 o _ => step_total_is_sum st0 o) Htr).
  intros k s. unfold empty_store. simpl. by rewrite lookup_empty.
Qed.

(** ** Submitting a review *)

(** A submission that finds its session and its file. *)
Lemma submit_file_review_found st disk now key filePath review projectRoot
    sessionId s i f :
  resolve_key st key = Some sessionId ->
  getSession st sessionId = Some s ->
  findIndex filePath (files s) = Some (i, f) ->
  let root := if truthy projectRoot then default "" projectRoot else key in
  let tokens :=
    currentFileTokens (default "" (disk (path_join root filePath))) review None in
  let s' := set_updatedAt now
              (recordReview s i (reviewFile f true review None tokens) tokens) in
  submit_file_review st disk now key filePath review projectRoot =
    ({| sessions := <[id s := s']> (sessions st);
        projectIndex := projectIndex st |},
     Submitted s' (currentSessionTokenCount s' >? tokenLimit s')).
Proof.
  intros Hres Hget Hfind. unfold submit_file_review, updateFileReview.
  rewrite Hres, Hget, Hfind. reflexivity.
Qed.

Lemma findIndex_lookup filePath fs i f :
  findIndex filePath fs = Some (i, f) ->
  fs !! i = Some f /\ path f = filePath /\
  (forall j g, fs !! j = Some g -> (j < i)%nat -> path g <> filePath).
Proof. unfold findIndex. intros H. by apply list_find_Some in H. Qed.

Lemma findIndex_None filePath fs :
  findIndex filePath fs = None <-> filePath ∉ map path fs.
Proof.
  unfold findIndex. rewrite list_find_None, Forall_forall. split.
  - intros Hall Hin. apply list_elem_of_fmap in Hin as (f & -> & Hf).
    by apply (Hall f Hf).
  - intros Hnot f Hf Hp. apply Hnot. apply list_elem_of_fmap. by exists f.
Qed.

(** C3. In every store reached from the empty one by tool calls, each
    session's [totalTokenCount] is the sum of its entries' [tokenCount]
    (an entry without one counting 0).  A successful submission keeps
    this: the entry it hits gets the submission's cost as its
    [tokenCount], and the total changes by the new cost minus the
    entry's previous one, so a resubmission replaces the file's share
    instead of adding to it. *)
Theorem totalTokenCount_is_sum ops st :
  trace empty_store ops st ->
  (forall k s, sessions st !! k = Some s ->
               totalTokenCount s = sumTokenCounts (files s)) /\
  (forall disk now key filePath review projectRoot sessionId s i f,
     resolve_key st key = Some sessionId ->
     getSession st sessionId = Some s ->
     findIndex filePath (files s) = Some (i, f) ->
     exists st' s' f' exceeds,
       submit_file_review st disk now key filePath review projectRoot =
         (st', Submitted s' exceeds) /\
       getSession st' sessionId = Some s' /\
       files s' !! i = Some f' /\
       tokenCount f' =
         Some (currentFileTokens
                 (default ""
                    (disk (path_join
                             (if truthy projectRoot then default "" projectRoot
                              else key) filePath)))
                 review None) /\
       totalTokenCount s' = sumTokenCounts (files s') /\
       totalTokenCount s' =
         totalTokenCount s - default 0 (tokenCount f)
         + default 0 (tokenCount f')).
Proof.
  intros Htr. pose proof (trace_total_is_sum _ _ Htr) as Hsum.
  pose proof (trace_store_wf _ _ _ Htr empty_store_wf) as Hwf.
  split; [exact Hsum|].
  intros disk now key filePath review projectRoot sid s i f Hres Hget Hfind.
  rewrite (submit_file_review_found _ disk now _ _ review projectRoot _ _ _ _
             Hres Hget Hfind).
  destruct (findIndex_lookup _ _ _ _ Hfind) as (Hi & _ & _).
  do 4 eexists. split; [reflexivity|].
  rewrite (Hwf _ _ Hget). unfold getSession. simpl.
  rewrite lookup_insert_eq. split; [reflexivity|]. simpl.
  rewrite list_lookup_insert_eq by (by eapply lookup_lt_Some).
  split; [reflexivity|]. split; [reflexivity|]. split; [reflexivity|].
  rewrite (sumTokenCounts_insert _ _ _ _ Hi). rewrite (Hsum _ _ Hget).
  reflexivity.
Qed.

(** ** Starting or resuming *)

Lemma resume_existing_found st now projectRoot sessionId s :
  getSessionIdForProject st projectRoot = Some sessionId ->
  getSession st sessionId = Some s ->
  completed s = false ->
  resume_existing st now projectRoot =
    Some (fst (saveSession st now (resetWindow s)),
          Resumed (set_updatedAt now (resetWindow s))).
Proof.
  intros Hidx Hget Hc. unfold resume_existing, resetSessionTokenCount.
  rewrite Hidx, Hget, Hc. reflexivity.
Qed.

(** C4. With [forceNew] false (or absent) and a project whose index entry
    names a stored session that is not completed, start-review-session
    answers "resumed" whatever the mode: no record is added, the index
    is the one before, and the stored session differs from the old one
    only in [currentSessionTokenCount], now 0, and [updatedAt]. *)
Theorem start_review_session_resumes st now newId listing projectRoot mode
    glob fileList limit forceNew sessionId s :
  default false forceNew = false ->
  getSessionIdForProject st projectRoot = Some sessionId ->
  getSession st sessionId = Some s ->
  id s = sessionId ->
  completed s = false ->
  exists st' s',
    start_review_session st now newId listing projectRoot mode glob fileList
      limit forceNew = (st', Resumed s') /\
    projectIndex st' = projectIndex st /\
    getSessionIdForProject st' projectRoot = Some sessionId /\
    (forall k, is_Some (sessions st' !! k) <-> is_Some (sessions st !! k)) /\
    (forall k, k <> sessionId -> sessions st' !! k = sessions st !! k) /\
    getSession st' sessionId = Some s' /\
    currentSessionTokenCount s' = 0 /\
    totalTokenCount s' = totalTokenCount s /\
    files s' = files s /\
    tokenLimit s' = tokenLimit s /\
    id s' = id s /\
    completed s' = completed s /\
    projectFolder s' = projectFolder s /\
    createdAt s' = createdAt s.
Proof.
  intros Hforce Hidx Hget Hid Hc.
  exists (fst (saveSession st now (resetWindow s))),
         (set_updatedAt now (resetWindow s)).
  split.
  { unfold start_review_session. rewrite Hforce. simpl negb.
    rewrite (resume_existing_found _ now _ _ _ Hidx Hget Hc).
    destruct (is_resume mode); reflexivity. }
  split; [reflexivity|].
  split; [exact Hidx|].
  unfold getSession in *. simpl. rewrite Hid.
  split.
  { intros k. destruct (decide (sessionId = k)) as [<-|Hne].
    - rewrite lookup_insert_eq, Hget. split; eauto.
    - by rewrite lookup_insert_ne. }
  split; [intros k Hne; by rewrite lookup_insert_ne|].
  rewrite lookup_insert_eq. repeat split; reflexivity.
Qed.

(** ** Completing *)

Lemma pendingCount_insert_reviewed fs i f' :
  reviewed f' = true -> pendingCount fs = O ->
  pendingCount (<[i := f']> fs) = O.
Proof.
  rewrite !pendingCount_zero. intros Hf' Hall g Hg.
  apply list_elem_of_lookup in Hg as [k Hk].
  destruct (decide (i = k)) as [<-|Hne].
  - destruct (decide (i < length fs)%nat) as [Hlt|Hge].
    + rewrite list_lookup_insert_eq in Hk by done. by injection Hk as <-.
    + rewrite list_insert_ge in Hk by lia.
      apply Hall. apply list_elem_of_lookup. eauto.
  - rewrite list_lookup_insert_ne in Hk by done.
    apply Hall. apply list_elem_of_lookup. eauto.
Qed.

Lemma written_completed_all_reviewed st o s' :
  store_all completed_all_reviewed st -> written st o s' ->
  completed_all_reviewed s'.
Proof.
  intros Hall Hw. unfold completed_all_reviewed.
  destruct Hw as [| ? ? ? ? ? ? ? ? ? sid s Hs Hc
                  | ? ? ? ? ? ? sid s i f tokens _ Hs _ _
                  | ? ? sid s _ Hs Hp]; simpl.
  - discriminate.
  - rewrite Hc. discriminate.
  - intros Hc. apply pendingCount_insert_reviewed; [reflexivity|].
    by apply (Hall _ _ Hs).
  - done.
Qed.

Lemma trace_completed_all_reviewed ops st :
  trace empty_store ops st -> store_all completed_all_reviewed st.
Proof.
  intros Htr.
  apply (trace_invariant (store_all completed_all_reviewed) _ _ _) in Htr; [done| |].
  - intros st0 o _ Hall.
    destruct (step_effect st0 o) as [E|(s' & Hw & E)];
      unfold store_all; rewrite E; [done|].
    intros k s. destruct (decide (id s' = k)) as [<-|Hne].
    + rewrite lookup_insert_eq. intros [= <-].
      apply (written_completed_all_reviewed _ _ _ Hall Hw).
    + rewrite lookup_insert_ne by done. apply Hall.
  - intros k s. unfold empty_store. simpl. by rewrite lookup_empty.
Qed.

Lemma markCompleted_id s : completed s = true -> markCompleted s = s.
Proof. destruct s. simpl. by intros ->. Qed.

(** C5 (as the code has it). In a store reached by tool calls:
    while some file is unreviewed, complete-review-session answers with
    the cannot-complete error carrying the number of unreviewed files,
    writes nothing, and the session is not completed; once no file is
    unreviewed it succeeds and stores the session with [completed] true.
    On a session that is already completed the call succeeds again, and
    the record it stores is the old one with [updatedAt] set to the time
    of the call. *)
Theorem complete_review_session_spec ops st now key sessionId s :
  trace empty_store ops st ->
  resolve_key st key = Some sessionId ->
  getSession st sessionId = Some s ->
  ((exists f, f ∈ files s /\ reviewed f = false) ->
     complete_review_session st now key =
       (st, CannotComplete (pendingCount (files s)) (reviewedCount (files s))
              (length (files s))) /\
     (0 < pendingCount (files s))%nat /\
     completed s = false) /\
  ((forall f, f ∈ files s -> reviewed f = true) ->
     exists st' s',
       complete_review_session st now key = (st', Completed s') /\
       getSession st' sessionId = Some s' /\
       s' = set_updatedAt now (markCompleted s) /\
       completed s' = true /\
       projectIndex st' = projectIndex st /\
       (forall k, k <> sessionId -> sessions st' !! k = sessions st !! k) /\
       (completed s = true -> s' = set_updatedAt now s)).
Proof.
  intros Htr Hres Hget.
  pose proof (trace_store_wf _ _ _ Htr empty_store_wf _ _ Hget) as Hid.
  pose proof (trace_completed_all_reviewed _ _ Htr _ _ Hget) as Hdone.
  unfold complete_review_session, completeSession. rewrite Hres, Hget. split.
  - intros Hex. apply pendingCount_pos in Hex.
    destruct (Nat.ltb_spec 0 (pendingCount (files s))); [|lia].
    split; [reflexivity|]. split; [done|].
    destruct (completed s) eqn:Hc; [|done].
    rewrite Hdone in Hex by done. lia.
  - intros Hall. apply pendingCount_zero in Hall.
    destruct (Nat.ltb_spec 0 (pendingCount (files s))); [lia|].
    do 2 eexists. split; [reflexivity|].
    unfold getSession. simpl. rewrite Hid.
    split; [by rewrite lookup_insert_eq|].
    split; [reflexivity|]. split; [reflexivity|]. split; [reflexivity|].
    split; [intros k Hne; by rewrite lookup_insert_ne|].
    intros Hc. by rewrite markCompleted_id.
Qed.

(** ** The token count of an entry *)

(** C6 (as the code has it). Through any tool call, an entry of a stored
    session keeps its place and its path; its [tokenCount] is set to the
    cost of the submission whenever the call is a successful submission
    that hits this entry (the first time and every later time, whether
    the new cost is higher or lower), and is left as it was by every
    other call. *)
Theorem tokenCount_set_by_each_submission ops st o sessionId s j f :
  trace empty_store ops st ->
  fresh_id st o ->
  sessions st !! sessionId = Some s ->
  files s !! j = Some f ->
  exists s' f',
    sessions (fst (step st o)) !! sessionId = Some s' /\
    files s' !! j = Some f' /\
    path f' = path f /\
    (submit_target st o = Some (sessionId, j) ->
       tokenCount f' = Some (submit_tokens o)) /\
    (submit_target st o <> Some (sessionId, j) ->
       tokenCount f' = tokenCount f).
Proof.
  intros Htr Hfresh Hs Hj.
  pose proof (trace_store_wf _ _ _ Htr empty_store_wf) as Hwf.
  pose proof (lookup_lt_Some _ _ _ Hj) as Hlt.
  destruct (decide (submit_target st o = Some (sessionId, j))) as [Ht|Ht].
  - destruct o as [| |disk now key filePath review projectRoot|]; try discriminate.
    simpl in Ht.
    destruct (resolve_key st key) as [sid|] eqn:Hres; [|discriminate].
    destruct (getSession st sid) as [s0|] eqn:Hget; [|discriminate].
    destruct (findIndex filePath (files s0)) as [[i f0]|] eqn:Hfind; [|discriminate].
    injection Ht as -> ->.
    unfold getSession in Hget. rewrite Hs in Hget. injection Hget as <-.
    simpl. rewrite (submit_file_review_found _ disk now _ _ review projectRoot
                      _ _ _ _ Hres Hs Hfind).
    simpl. rewrite (Hwf _ _ Hs), lookup_insert_eq.
    do 2 eexists. split; [reflexivity|]. simpl.
    rewrite list_lookup_insert_eq by done.
    split; [reflexivity|]. simpl.
    destruct (findIndex_lookup _ _ _ _ Hfind) as (Hj' & _ & _).
    rewrite Hj in Hj'. injection Hj' as <-.
    split; [reflexivity|]. split; [intros _; reflexivity|].
    intros Hn. exfalso. apply Hn. simpl. unfold getSession.
    by rewrite Hres, Hs, Hfind.
  - assert (Hsame : exists s' f',
              Some s = Some s' /\ files s' !! j = Some f' /\ path f' = path f /\
              (submit_target st o = Some (sessionId, j) ->
                 tokenCount f' = Some (submit_tokens o)) /\
              (submit_target st o <> Some (sessionId, j) ->
                 tokenCount f' = tokenCount f)).
    { exists s, f. repeat split; done. }
    destruct (step_effect st o) as [E|(s1 & Hw & E)]; rewrite E;
      [by rewrite Hs|].
    destruct (decide (id s1 = sessionId)) as [Hid|Hne];
      [|by rewrite lookup_insert_ne, Hs].
    rewrite Hid, lookup_insert_eq.
    destruct Hw as [now newId ? ? ? ? ? ? ? l
                   | ? ? ? ? ? ? ? ? ? sid s0 Hs0 Hc
                   | disk now key filePath review projectRoot sid s0 i f0 tokens
                       Hres Hs0 Hfind Htok
                   | ? ? sid s0 Hres Hs0 Hp]; simpl in Hid |- *.
    + simpl in Hfresh. subst newId. congruence.
    + rewrite (Hwf _ _ Hs0) in Hid. subst sid.
      rewrite Hs in Hs0. injection Hs0 as <-.
      eexists _, f. split; [reflexivity|]. repeat split; done.
    + rewrite (Hwf _ _ Hs0) in Hid. subst sid.
      rewrite Hs in Hs0. injection Hs0 as <-.
      assert (i <> j) as Hij.
      { intros ->. apply Ht. simpl. unfold getSession.
        by rewrite Hres, Hs, Hfind. }
      eexists _, f. split; [reflexivity|]. simpl.
      rewrite list_lookup_insert_ne by done. repeat split; done.
    + rewrite (Hwf _ _ Hs0) in Hid. subst sid.
      rewrite Hs in Hs0. injection Hs0 as <-.
      eexists _, f. split; [reflexivity|]. repeat split; done.
Qed.

(** C8. When the reviewed file cannot be read (it is missing, or reading
    it fails), a submission for a path of the session still succeeds: the
    handler calls [updateFileReview] with the empty text as content.  With
    a tokenizer that gives the empty text no token, [updateFileReview] on
    the empty content marks the entry reviewed and charges the feedback
    and agent-review estimates alone, the content counting 0.  (The
    handler hands its review text over as the feedback and passes no agent
    review, which counts 0.) *)
Theorem submit_file_review_unreadable st disk now key filePath review
    projectRoot sessionId s :
  encode "" = [] ->
  resolve_key st key = Some sessionId ->
  getSession st sessionId = Some s ->
  id s = sessionId ->
  filePath ∈ map path (files s) ->
  disk (path_join (if truthy projectRoot then default "" projectRoot else key)
          filePath) = None ->
  (exists st' s' exceeds,
     submit_file_review st disk now key filePath review projectRoot =
       (st', Submitted s' exceeds) /\
     updateFileReview st now sessionId filePath "" true review None =
       Some (st', s')) /\
  (forall fb agent,
     exists st' s' i f f',
       updateFileReview st now sessionId filePath "" true fb agent =
         Some (st', s') /\
       getSession st' sessionId = Some s' /\
       findIndex filePath (files s) = Some (i, f) /\
       files s' !! i = Some f' /\
       path f' = filePath /\
       reviewed f' = true /\
       feedback f' = fb /\
       tokenCount f' =
         Some (0 + countToken fb
               + (if truthy agent then countToken (default "" agent) else 0)) /\
       currentSessionTokenCount s' =
         currentSessionTokenCount s
         + (countToken fb
            + (if truthy agent then countToken (default "" agent) else 0))).
Proof.
  intros Hempty Hres Hget Hid Hin Hdisk.
  destruct (findIndex filePath (files s)) as [[i f]|] eqn:Hfind;
    [|by apply findIndex_None in Hfind].
  destruct (findIndex_lookup _ _ _ _ Hfind) as (Hi & Hp & _).
  split.
  - unfold submit_file_review. rewrite Hres, Hdisk. simpl default.
    unfold updateFileReview. rewrite Hget, Hfind.
    do 3 eexists. split; reflexivity.
  - intros fb agent. unfold updateFileReview. rewrite Hget, Hfind.
    assert (Hcost : currentFileTokens "" fb agent =
                    0 + countToken fb
                    + (if truthy agent then countToken (default "" agent) else 0)).
    { unfold currentFileTokens. unfold countToken at 1. by rewrite Hempty. }
    do 5 eexists. split; [reflexivity|].
    unfold getSession. simpl. rewrite Hid, lookup_insert_eq.
    split; [reflexivity|]. split; [reflexivity|]. simpl.
    rewrite list_lookup_insert_eq by (by eapply lookup_lt_Some).
    split; [reflexivity|]. simpl. rewrite Hcost.
    repeat split; try done; lia.
Qed.

(** C10. A submission for a path that is not in the session's file list
    fails and writes nothing: the store after the call is the store
    before it, so the session record is the same in every field. *)
Theorem submit_file_review_unknown_path st disk now key filePath review
    projectRoot sessionId s :
  resolve_key st key = Some sessionId ->
  getSession st sessionId = Some s ->
  filePath ∉ map path (files s) ->
  submit_file_review st disk now key filePath review projectRoot =
    (st, Failure UpdateFailed) /\
  getSession (fst (submit_file_review st disk now key filePath review projectRoot))
    sessionId = Some s.
Proof.
  intros Hres Hget Hnot. apply findIndex_None in Hnot.
  unfold submit_file_review, updateFileReview. rewrite Hres, Hget, Hnot.
  split; [reflexivity|exact Hget].
Qed.

(** ** A path listed twice *)

(** [findIndex] never lands on a later duplicate. *)
Lemma findIndex_skips_duplicate p j s filePath k f :
  has_pending_duplicate p j s ->
  findIndex filePath (files s) = Some (k, f) -> k <> j.
Proof.
  intros (i & fi & fj & Hij & Hi & Hj & Hpi & Hpj & _) Hfind ->.
  destruct (findIndex_lookup _ _ _ _ Hfind) as (Hk & Hp & Hfirst).
  rewrite Hj in Hk. injection Hk as <-.
  apply (Hfirst i fi Hi Hij). congruence.
Qed.

Lemma has_pending_duplicate_pending p j s :
  has_pending_duplicate p j s -> (0 < pendingCount (files s))%nat.
Proof.
  intros (i & fi & fj & _ & _ & Hj & _ & _ & Hrev).
  apply pendingCount_pos. exists fj. split; [|done].
  apply list_elem_of_lookup. eauto.
Qed.

(** A written session object keeps the duplicate of the session it was
    made from pending, and is not a completed one. *)
Lemma written_keeps_duplicate st o s1 p j s :
  sessions st !! id s1 = Some s ->
  store_wf st ->
  fresh_id st o ->
  has_pending_duplicate p j s -> completed s = false ->
  written st o s1 ->
  has_pending_duplicate p j s1 /\ completed s1 = false.
Proof.
  intros Hs Hwf Hfresh Hdup Hc Hw.
  destruct Hw as [now newId ? ? ? ? ? ? ? l
                 | ? ? ? ? ? ? ? ? ? sid s0 Hs0 Hc0
                 | disk now key filePath review projectRoot sid s0 i0 f0 tokens
                     Hres Hs0 Hfind Htok
                 | ? ? sid s0 Hres Hs0 Hp]; simpl in Hs.
  - simpl in Hfresh. congruence.
  - rewrite (Hwf _ _ Hs0), Hs0 in Hs. injection Hs as <-. done.
  - rewrite (Hwf _ _ Hs0), Hs0 in Hs. injection Hs as <-.
    split; [|done].
    pose proof (findIndex_skips_duplicate _ _ _ _ _ _ Hdup Hfind) as Hne.
    destruct (findIndex_lookup _ _ _ _ Hfind) as (Hi0 & Hp0 & _).
    destruct Hdup as (i & fi & fj & Hij & Hi & Hj & Hpi & Hpj & Hrev).
    destruct (decide (i0 = i)) as [->|Hne'].
    + exists i, (reviewFile f0 true review None tokens), fj. simpl.
      rewrite list_lookup_insert_eq by (by eapply lookup_lt_Some).
      rewrite list_lookup_insert_ne by done.
      rewrite Hi in Hi0. injection Hi0 as <-. done.
    + exists i, fi, fj. simpl.
      rewrite !list_lookup_insert_ne by done. done.
  - rewrite (Hwf _ _ Hs0), Hs0 in Hs. injection Hs as <-.
    apply has_pending_duplicate_pending in Hdup. lia.
Qed.

Lemma createSession_store_wf st now sessionId projectFolder fileList limit :
  store_wf st ->
  store_wf (fst (createSession st now sessionId projectFolder fileList limit)).
Proof.
  intros Hwf k s. simpl. destruct (decide (sessionId = k)) as [<-|Hne].
  - rewrite lookup_insert_eq. by intros [= <-].
  - rewrite lookup_insert_ne by done. apply Hwf.
Qed.

Lemma newSession_duplicate now sessionId projectFolder fileList limit i j p :
  (i < j)%nat -> fileList !! i = Some p -> fileList !! j = Some p ->
  has_pending_duplicate p j
    (set_updatedAt now (newSession now sessionId projectFolder fileList limit)).
Proof.
  intros Hij Hi Hj. exists i, (newReviewFile p), (newReviewFile p). simpl.
  rewrite !list_lookup_fmap, Hi, Hj. done.
Qed.

(** C9. A session created from a file list that names a path [p] at two
    places [i < j] stays stuck through every sequence of tool calls:
    the entry at [j] still carries [p] and is still unreviewed, no
    submission ever lands on it ([findIndex] stops at an earlier entry),
    the session is not completed, and complete-review-session on it
    answers with the cannot-complete error and writes nothing. *)
Theorem duplicate_path_never_completed st0 now newId projectFolder fileList
    limit i j p ops st :
  store_wf st0 ->
  (i < j)%nat -> fileList !! i = Some p -> fileList !! j = Some p ->
  trace (fst (createSession st0 now newId projectFolder fileList limit)) ops st ->
  exists s fj,
    getSession st newId = Some s /\
    files s !! j = Some fj /\ path fj = p /\ reviewed fj = false /\
    completed s = false /\
    (forall filePath k f, findIndex filePath (files s) = Some (k, f) -> k <> j) /\
    (forall now' key,
       resolve_key st key = Some newId ->
       complete_review_session st now' key =
         (st, CannotComplete (pendingCount (files s)) (reviewedCount (files s))
                (length (files s))) /\
       (0 < pendingCount (files s))%nat).
Proof.
  intros Hwf0 Hij Hi Hj Htr.
  set (J := fun st1 : Store =>
              store_wf st1 /\
              exists s, sessions st1 !! newId = Some s /\
                        has_pending_duplicate p j s /\ completed s = false).
  assert (HJ : J st).
  { apply (trace_invariant J _ _ _) in Htr; [done| |].
    - intros st1 o Hfresh (Hwf & s & Hs & Hdup & Hc).
      split; [by apply step_store_wf|].
      destruct (step_effect st1 o) as [E|(s1 & Hw & E)]; rewrite E; [eauto|].
      destruct (decide (id s1 = newId)) as [Hid|Hne].
      + rewrite Hid, lookup_insert_eq. eexists. split; [reflexivity|].
        rewrite <- Hid in Hs.
        destruct (written_keeps_duplicate _ _ _ _ _ _ Hs Hwf Hfresh Hdup Hc Hw)
          as [(i' & fi & fj & H)  Hc1].
        split; [|done]. exists i', fi, fj. exact H.
      + rewrite lookup_insert_ne by done. eauto.
    - split.
      + by apply createSession_store_wf.
      + eexists. simpl. rewrite lookup_insert_eq. split; [reflexivity|].
        split; [|done]. by eapply newSession_duplicate. }
  destruct HJ as (Hwf & s & Hs & Hdup & Hc).
  pose proof (has_pending_duplicate_pending _ _ _ Hdup) as Hpos.
  pose proof Hdup as (i' & fi & fj & _ & _ & Hfj & _ & Hpj & Hrev).
  exists s, fj. split; [exact Hs|]. do 4 (split; [done|]). split.
  - intros filePath k f. by apply findIndex_skips_duplicate with (p := p).
  - intros now' key Hres. split; [|exact Hpos].
    unfold complete_review_session. rewrite Hres. unfold getSession. rewrite Hs.
    destruct (Nat.ltb_spec 0 (pendingCount (files s))); [done|lia].
Qed.

(** * Further properties *)

(** ** The reader: where the loop stops *)

Lemma tokens_between_nil lineTokens n : tokens_between lineTokens n n = [].
Proof. unfold tokens_between. by rewrite Nat.sub_diag. Qed.

Lemma tokens_between_step lineTokens n k v :
  lineTokens !! n = Some v -> (n < k)%nat ->
  sum_tokens (tokens_between lineTokens n k) =
  v + sum_tokens (tokens_between lineTokens (S n) k).
Proof.
  intros Hn Hk. unfold tokens_between.
  rewrite (drop_S _ _ _ Hn).
  replace (k - n)%nat with (S (k - S n)) by lia. reflexivity.
Qed.

(** The loop, started at line [n] with running total [c]: it stops at the
    first line count whose running total reaches the budget, or, when the
    lines run out first, one past the end of the array. *)
Lemma getEndline_loop_spec fuel lineTokens token (n : nat) c e :
  getEndline_loop fuel lineTokens token (Z.of_nat n) (Num c) = Some e ->
  exists m : nat,
    e = Z.of_nat m /\ (n <= m)%nat /\
    (forall k, (n <= k < m)%nat -> (k <= length lineTokens)%nat ->
               c + sum_tokens (tokens_between lineTokens n k) < token) /\
    ((m <= Nat.max n (length lineTokens))%nat /\
       token <= c + sum_tokens (tokens_between lineTokens n m)
     \/
     m = S (Nat.max n (length lineTokens)) /\
       c + sum_tokens (tokens_between lineTokens n (length lineTokens)) < token).
Proof.
  revert n c. induction fuel as [|fuel IH]; intros n c; [discriminate|].
  simpl. destruct (Z.ltb_spec c token) as [Hlt|Hge].
  - destruct (lineTokens !! n) as [v|] eqn:Hn.
    + assert (Hidx : js_index lineTokens (Z.of_nat n) = Some v).
      { unfold js_index. destruct (Z.ltb_spec (Z.of_nat n) 0); [lia|].
        by rewrite Nat2Z.id. }
      rewrite Hidx. simpl. replace (Z.of_nat n + 1) with (Z.of_nat (S n)) by lia.
      intros Hloop. destruct (IH _ _ Hloop) as (m & -> & Hle & Hbelow & Hexit).
      pose proof (lookup_lt_Some _ _ _ Hn) as Hlen.
      exists m. split; [done|]. split; [lia|]. split.
      * intros k Hk Hkl. destruct (decide (k = n)) as [->|Hne].
        -- rewrite tokens_between_nil. simpl. lia.
        -- rewrite (tokens_between_step _ _ _ _ Hn) by lia.
           specialize (Hbelow k). lia.
      * destruct Hexit as [[Hm Htok]|[Hm Htok]].
        -- left. split; [lia|].
           rewrite (tokens_between_step _ _ _ _ Hn) by lia. lia.
        -- right. split; [lia|].
           rewrite (tokens_between_step _ _ _ _ Hn) by lia. lia.
    + assert (Hidx : js_index lineTokens (Z.of_nat n) = None).
      { apply js_index_ge. apply lookup_ge_None in Hn. lia. }
      rewrite Hidx. simpl. apply lookup_ge_None in Hn.
      destruct fuel as [|fuel]; [discriminate|]. simpl.
      intros [= <-]. exists (S n). split; [lia|]. split; [lia|]. split.
      * intros k Hk Hkl. assert (k = n) as -> by lia.
        rewrite tokens_between_nil. simpl. lia.
      * right. split; [lia|].
        unfold tokens_between. replace (length lineTokens - n)%nat with O by lia.
        simpl. lia.
  - intros [= <-]. exists n. split; [done|]. split; [done|]. split; [lia|].
    left. split; [lia|]. rewrite tokens_between_nil. simpl. lia.
Qed.

Lemma getEndline_spec lineTokens token (n : nat) e :
  getEndline (Z.of_nat n) lineTokens token = Some e ->
  exists m : nat,
    e = Z.of_nat m /\ (n <= m)%nat /\
    (forall k, (n <= k < m)%nat -> (k <= length lineTokens)%nat ->
               sum_tokens (tokens_between lineTokens n k) < token) /\
    ((m <= Nat.max n (length lineTokens))%nat /\
       token <= sum_tokens (tokens_between lineTokens n m)
     \/
     m = S (Nat.max n (length lineTokens)) /\
       sum_tokens (tokens_between lineTokens n (length lineTokens)) < token).
Proof.
  intros H. apply getEndline_loop_spec in H as (m & He & Hle & Hbelow & Hexit).
  exists m. split; [done|]. split; [done|]. split.
  - intros k Hk Hkl. specialize (Hbelow k Hk Hkl). lia.
  - destruct Hexit as [[? ?]|[? ?]]; [left|right]; split; (done || lia).
Qed.

Lemma getEndline_negative lineTokens token startLine :
  startLine < 0 -> 0 < token ->
  getEndline startLine lineTokens token = Some (startLine + 1).
Proof.
  intros Hneg Htok. unfold getEndline, getEndline_fuel. simpl.
  destruct (Z.ltb_spec 0 token); [|lia].
  unfold js_index. destruct (Z.ltb_spec startLine 0); [|lia]. reflexivity.
Qed.

Lemma getEndline_without_budget lineTokens token startLine :
  token <= 0 -> getEndline startLine lineTokens token = Some startLine.
Proof.
  intros Htok. unfold getEndline, getEndline_fuel. simpl.
  destruct (Z.ltb_spec 0 token); [lia|]. reflexivity.
Qed.

Lemma slice_empty {A} (a : list A) start :
  slice a start (default 0 start) = [].
Proof. unfold slice. by rewrite Z.sub_diag. Qed.

Lemma slice_to_end {A} (a : list A) start (n : nat) stop :
  default 0 start = Z.of_nat n -> (n <= length a)%nat ->
  Z.of_nat (length a) <= stop ->
  slice a start stop = drop n a.
Proof.
  intros Hs Hn Hstop. unfold slice, rel_index. rewrite Hs.
  destruct (Z.ltb_spec (Z.of_nat n) 0); [lia|].
  destruct (Z.ltb_spec stop 0); [lia|].
  rewrite (Z.min_l (Z.of_nat n)) by lia. rewrite (Z.min_r stop) by lia.
  rewrite Nat2Z.id. apply take_ge. rewrite length_drop. lia.
Qed.

Lemma countToken_lines_nonneg text :
  Forall (fun t => 0 <= t) (countToken_lines text).
Proof.
  unfold countToken_lines. apply Forall_forall. intros t Ht.
  apply list_elem_of_fmap in Ht as (line & -> & _). lia.
Qed.

Lemma sum_tokens_nonneg ts : Forall (fun t => 0 <= t) ts -> 0 <= sum_tokens ts.
Proof. induction 1 as [|t ts Ht _ IH]; simpl; lia. Qed.

Lemma sum_tokens_take_le ts j :
  Forall (fun t => 0 <= t) ts -> sum_tokens (take j ts) <= sum_tokens ts.
Proof.
  intros Hall. revert j. induction Hall as [|t ts Ht Hts IH]; intros j.
  - by rewrite take_nil.
  - destruct j as [|j]; simpl.
    + pose proof (sum_tokens_nonneg _ Hts). lia.
    + specialize (IH j). lia.
Qed.

Lemma join_lines_cons l l' ls :
  join_lines (l :: l' :: ls) =
  (l ++ String "010"%char (join_lines (l' :: ls)))%string.
Proof. reflexivity. Qed.

Lemma split_lines_not_nil text : split_lines text <> [].
Proof.
  destruct text as [|c rest]; [done|]. simpl.
  destruct (Ascii.eqb c "010"%char); [done|].
  by destruct (split_lines rest).
Qed.

(** The text is the join of its lines. *)
Lemma join_split_lines text : join_lines (split_lines text) = text.
Proof.
  induction text as [|c rest IH]; [reflexivity|].
  cbn [split_lines]. pose proof (split_lines_not_nil rest) as Hne.
  destruct (split_lines rest) as [|l ls]; [done|].
  destruct (Ascii.eqb_spec c "010"%char) as [->|Hc].
  - rewrite join_lines_cons, IH. reflexivity.
  - destruct ls as [|l' ls'].
    + unfold join_lines in *. simpl in *. by rewrite IH.
    + rewrite join_lines_cons in IH. rewrite join_lines_cons.
      rewrite <- IH. reflexivity.
Qed.

(** X1. A budget of zero or less buys nothing: the call succeeds with the
    empty content and returns its own start as [endLine], so a caller that
    follows [endLine] does not move. *)
Theorem getFileContent_without_budget disk root filePath token startLine text :
  getFileContentByPath disk root filePath = Some text ->
  token <= 0 ->
  getFileContent disk root filePath token startLine =
    ReadOk {| content := "";
              endLine := default 0 startLine;
              isEnded := (default 0 startLine
                          =? Z.of_nat (length (split_lines text))) |}.
Proof.
  intros Hread Htok. unfold getFileContent. rewrite Hread.
  rewrite getEndline_without_budget by done.
  by rewrite slice_empty, length_countToken_lines.
Qed.

(** X2. With a positive budget every call moves forward: [endLine] is
    greater than the start, and at most one more than the larger of the
    start and the number of lines. *)
Theorem getFileContent_advances disk root filePath token startLine text :
  getFileContentByPath disk root filePath = Some text ->
  0 < token ->
  exists c,
    getFileContent disk root filePath token startLine = ReadOk c /\
    default 0 startLine < endLine c /\
    endLine c <=
      Z.max (default 0 startLine) (Z.of_nat (length (split_lines text))) + 1.
Proof.
  intros Hread Htok.
  destruct (getEndline_total (default 0 startLine) (countToken_lines text) token)
    as [e He].
  destruct (getFileContent_endLine _ _ _ _ _ _ _ Hread He) as (c & Hc & Hec & _).
  exists c. split; [done|]. rewrite Hec. clear Hc Hec.
  rewrite <- length_countToken_lines.
  destruct (Z.ltb_spec (default 0 startLine) 0) as [Hneg|Hpos].
  - rewrite getEndline_negative in He by done. injection He as <-. lia.
  - rewrite <- (Z2Nat.id _ Hpos) in He.
    apply getEndline_spec in He as (m & -> & Hle & _ & Hexit).
    destruct Hexit as [[Hm Hsum]|[-> _]]; [|lia].
    split; [|lia].
    destruct (decide (m = Z.to_nat (default 0 startLine))) as [->|Hne]; [|lia].
    rewrite tokens_between_nil in Hsum. simpl in Hsum. lia.
Qed.

Lemma getFileContent_ReadOk disk root filePath token startLine text c :
  getFileContentByPath disk root filePath = Some text ->
  getFileContent disk root filePath token startLine = ReadOk c ->
  getEndline (default 0 startLine) (countToken_lines text) token = Some (endLine c) /\
  content c = join_lines (slice (split_lines text) startLine (endLine c)) /\
  isEnded c = (endLine c =? Z.of_nat (length (split_lines text))).
Proof.
  intros Hread. unfold getFileContent. rewrite Hread.
  destruct (getEndline _ _ _) as [e|]; [|discriminate].
  intros [= <-]. simpl. by rewrite length_countToken_lines.
Qed.

(** X3. A chunk that ends inside the file is the shortest run of lines,
    from its start, whose token cost reaches the budget: the cost of the
    lines returned is at least the budget, and the cost of every shorter
    run is below it. *)
Theorem getFileContent_reaches_budget disk root filePath token (n : nat) text c :
  getFileContentByPath disk root filePath = Some text ->
  0 < token ->
  getFileContent disk root filePath token (Some (Z.of_nat n)) = ReadOk c ->
  endLine c <= Z.of_nat (length (split_lines text)) ->
  exists m : nat,
    endLine c = Z.of_nat m /\
    (n < m <= length (split_lines text))%nat /\
    token <= sum_tokens (tokens_between (countToken_lines text) n m) /\
    (forall k, (n <= k < m)%nat ->
               sum_tokens (tokens_between (countToken_lines text) n k) < token).
Proof.
  intros Hread Htok Hc Hin.
  destruct (getFileContent_ReadOk _ _ _ _ _ _ _ Hread Hc) as (He & _ & _).
  simpl in He. apply getEndline_spec in He as (m & Hm & Hle & Hbelow & Hexit).
  rewrite Hm in Hin. rewrite <- length_countToken_lines in *.
  exists m. split; [done|].
  destruct Hexit as [[Hmax Hsum]|[-> _]]; [|lia].
  assert (n < m)%nat as Hlt.
  { destruct (decide (m = n)) as [->|]; [|lia].
    rewrite tokens_between_nil in Hsum. simpl in Hsum. lia. }
  split; [lia|]. split; [done|].
  intros k Hk. apply Hbelow; lia.
Qed.

(** X4. When the lines from the start to the end of the file cost less
    than the budget, the call returns all of them, with [endLine] one past
    the number of lines, and [isEnded] false.  In particular, with a
    budget above the cost of the whole file, a call from the first line
    returns the whole text, and still reports [isEnded] false. *)
Theorem getFileContent_tail disk root filePath token startLine (n : nat) text :
  getFileContentByPath disk root filePath = Some text ->
  default 0 startLine = Z.of_nat n ->
  (n <= length (split_lines text))%nat ->
  sum_tokens (drop n (countToken_lines text)) < token ->
  getFileContent disk root filePath token startLine =
    ReadOk {| content := join_lines (drop n (split_lines text));
              endLine := Z.of_nat (length (split_lines text)) + 1;
              isEnded := false |} /\
  (n = O -> join_lines (drop n (split_lines text)) = text).
Proof.
  intros Hread Hstart Hn Hsum.
  assert (He : getEndline (Z.of_nat n) (countToken_lines text) token =
               Some (Z.of_nat (length (split_lines text)) + 1)).
  { destruct (getEndline_total (Z.of_nat n) (countToken_lines text) token)
      as [e He]. rewrite He. f_equal.
    apply getEndline_spec in He as (m & -> & _ & _ & Hexit).
    rewrite length_countToken_lines in Hexit.
    destruct Hexit as [[_ Hreach]|[-> _]]; [|lia].
    pose proof (sum_tokens_take_le (drop n (countToken_lines text)) (m - n)) as Hle.
    unfold tokens_between in Hreach.
    assert (Forall (fun t => 0 <= t) (drop n (countToken_lines text))) as Hnn.
    { apply Forall_drop, countToken_lines_nonneg. }
    specialize (Hle Hnn). lia. }
  split.
  - unfold getFileContent. rewrite Hread, Hstart, He.
    rewrite length_countToken_lines.
    rewrite (slice_to_end _ _ n) by (done || lia).
    f_equal. f_equal. apply Z.eqb_neq. lia.
  - intros ->. rewrite drop_0. apply join_split_lines.
Qed.

(** X5. Started at or past the last line plus one, with a positive
    budget, a call returns the empty content, its start plus one as
    [endLine], and [isEnded] false: following [endLine] from there never
    ends. *)
Theorem getFileContent_past_end disk root filePath token startLine text :
  getFileContentByPath disk root filePath = Some text ->
  0 < token ->
  Z.of_nat (length (split_lines text)) <= startLine ->
  getFileContent disk root filePath token (Some startLine) =
    ReadOk {| content := ""; endLine := startLine + 1; isEnded := false |}.
Proof.
  intros Hread Htok Hpast. unfold getFileContent. rewrite Hread. simpl default.
  rewrite getEndline_past_end by (by rewrite ?length_countToken_lines).
  rewrite length_countToken_lines.
  assert (Hslice : slice (split_lines text) (Some startLine) (startLine + 1) = []).
  { unfold slice, rel_index. simpl default.
    destruct (Z.ltb_spec startLine 0); [lia|].
    destruct (Z.ltb_spec (startLine + 1) 0); [lia|].
    rewrite !Z.min_r by lia. by rewrite Z.sub_diag. }
  rewrite Hslice. f_equal. f_equal. apply Z.eqb_neq. lia.
Qed.

(** X6. A negative start, with a positive budget: the loop reads outside
    the array at once, so [endLine] is the start plus one and [isEnded] is
    false, while [slice] counts the negative bounds from the end: the
    content is the single line [k] places before the end (for a start of
    [-k], [2 <= k <= number of lines]). *)
Theorem getFileContent_negative_start disk root filePath token (k : nat) text line :
  getFileContentByPath disk root filePath = Some text ->
  0 < token ->
  (2 <= k <= length (split_lines text))%nat ->
  split_lines text !! (length (split_lines text) - k)%nat = Some line ->
  getFileContent disk root filePath token (Some (- Z.of_nat k)) =
    ReadOk {| content := line; endLine := - Z.of_nat k + 1; isEnded := false |}.
Proof.
  intros Hread Htok Hk Hline. unfold getFileContent. rewrite Hread. simpl default.
  rewrite getEndline_negative by lia. rewrite length_countToken_lines.
  assert (Hslice : slice (split_lines text) (Some (- Z.of_nat k)) (- Z.of_nat k + 1)
                   = [line]).
  { unfold slice, rel_index. simpl default.
    destruct (Z.ltb_spec (- Z.of_nat k) 0); [|lia].
    destruct (Z.ltb_spec (- Z.of_nat k + 1) 0); [|lia].
    rewrite !Z.max_l by lia.
    replace (Z.of_nat (length (split_lines text)) + (- Z.of_nat k + 1)
             - (Z.of_nat (length (split_lines text)) + - Z.of_nat k)) with 1 by lia.
    replace (Z.to_nat (Z.of_nat (length (split_lines text)) + - Z.of_nat k))
      with (length (split_lines text) - k)%nat by lia.
    rewrite (drop_S _ _ _ Hline). reflexivity. }
  rewrite Hslice. f_equal. f_equal. apply Z.eqb_neq. lia.
Qed.

Lemma take_plus_app {A} (l : list A) a b :
  take (a + b) l = (take a l ++ take b (drop a l))%list.
Proof.
  revert l. induction a as [|a IH]; intros l; [reflexivity|].
  destruct l as [|x l]; simpl.
  - by rewrite take_nil.
  - by rewrite IH.
Qed.

Lemma string_app_assoc (x y z : string) :
  ((x ++ y) ++ z = x ++ (y ++ z))%string.
Proof.
  induction x as [|c x IH]; [done|].
  change (String c ((x ++ y) ++ z) = String c (x ++ (y ++ z)))%string.
  by f_equal.
Qed.

Lemma join_lines_app A B :
  A <> [] -> B <> [] ->
  join_lines (A ++ B)%list =
  (join_lines A ++ String "010"%char (join_lines B))%string.
Proof.
  intros HA HB. induction A as [|a A IH]; [done|].
  destruct A as [|a' A'].
  - destruct B as [|b B]; [done|]. simpl app. apply join_lines_cons.
  - simpl app in *. rewrite !join_lines_cons. rewrite IH by done.
    by rewrite string_app_assoc.
Qed.

(** X7. Consecutive chunks fit together: when a call from line [n] ends
    inside the file and the next call starts at its [endLine], the two
    contents joined by a newline are the lines from [n] up to the second
    [endLine] (or the end of the file), with no gap and no overlap. *)
Theorem getFileContent_chunks_join disk root filePath token (n : nat) text c1 c2 :
  getFileContentByPath disk root filePath = Some text ->
  0 < token ->
  getFileContent disk root filePath token (Some (Z.of_nat n)) = ReadOk c1 ->
  endLine c1 < Z.of_nat (length (split_lines text)) ->
  getFileContent disk root filePath token (Some (endLine c1)) = ReadOk c2 ->
  (content c1 ++ String "010"%char (content c2))%string =
    join_lines (slice (split_lines text) (Some (Z.of_nat n)) (endLine c2)) /\
  endLine c1 < endLine c2.
Proof.
  intros Hread Htok Hc1 Hin Hc2.
  destruct (getFileContent_ReadOk _ _ _ _ _ _ _ Hread Hc1) as (He1 & Hcont1 & _).
  destruct (getFileContent_ReadOk _ _ _ _ _ _ _ Hread Hc2) as (He2 & Hcont2 & _).
  simpl in He1, He2.
  apply getEndline_spec in He1 as (m1 & Hm1 & Hle1 & _ & Hexit1).
  rewrite length_countToken_lines in Hexit1.
  assert (n < m1)%nat as Hlt1.
  { destruct Hexit1 as [[_ Hsum]|[-> _]]; [|lia].
    destruct (decide (m1 = n)) as [->|]; [|lia].
    rewrite tokens_between_nil in Hsum. simpl in Hsum. lia. }
  rewrite Hm1 in *.
  apply getEndline_spec in He2 as (m2 & Hm2 & Hle2 & _ & Hexit2).
  rewrite length_countToken_lines in Hexit2.
  assert (m1 < m2)%nat as Hlt2.
  { destruct Hexit2 as [[_ Hsum]|[-> _]]; [|lia].
    destruct (decide (m2 = m1)) as [->|]; [|lia].
    rewrite tokens_between_nil in Hsum. simpl in Hsum. lia. }
  rewrite Hm2 in *. split; [|lia].
  rewrite Hcont1, Hcont2.
  set (ls := split_lines text) in *.
  set (stop := Nat.min m2 (length ls)).
  assert (Hs1 : slice ls (Some (Z.of_nat n)) (Z.of_nat m1) =
                take (m1 - n) (drop n ls)).
  { unfold slice, rel_index. simpl default.
    destruct (Z.ltb_spec (Z.of_nat n) 0); [lia|].
    destruct (Z.ltb_spec (Z.of_nat m1) 0); [lia|].
    rewrite !Z.min_l by lia. f_equal; [lia|]. by rewrite Nat2Z.id. }
  assert (Hs2 : slice ls (Some (Z.of_nat m1)) (Z.of_nat m2) =
                take (stop - m1) (drop m1 ls)).
  { unfold slice, rel_index. simpl default.
    destruct (Z.ltb_spec (Z.of_nat m1) 0); [lia|].
    destruct (Z.ltb_spec (Z.of_nat m2) 0); [lia|].
    rewrite (Z.min_l (Z.of_nat m1)) by lia. f_equal; [lia|]. by rewrite Nat2Z.id. }
  assert (Hs : slice ls (Some (Z.of_nat n)) (Z.of_nat m2) =
               take (stop - n) (drop n ls)).
  { unfold slice, rel_index. simpl default.
    destruct (Z.ltb_spec (Z.of_nat n) 0); [lia|].
    destruct (Z.ltb_spec (Z.of_nat m2) 0); [lia|].
    rewrite (Z.min_l (Z.of_nat n)) by lia. f_equal; [lia|]. by rewrite Nat2Z.id. }
  rewrite Hs1, Hs2, Hs.
  replace (stop - n)%nat with ((m1 - n) + (stop - m1))%nat by lia.
  rewrite take_plus_app, drop_drop.
  replace (n + (m1 - n))%nat with m1 by lia.
  rewrite join_lines_app; [reflexivity| |].
  - intros Hnil. apply (f_equal length) in Hnil.
    rewrite length_take, length_drop in Hnil. simpl in Hnil. lia.
  - intros Hnil. apply (f_equal length) in Hnil.
    rewrite length_take, length_drop in Hnil. simpl in Hnil. lia.
Qed.

(** ** The engine: what every tool call keeps *)

Lemma evolves_refl s : evolves s s.
Proof. unfold evolves. repeat split; eauto. Qed.

Lemma evolves_trans s1 s2 s3 : evolves s1 s2 -> evolves s2 s3 -> evolves s1 s3.
Proof.
  intros (Hi & Hp & Hc & Hl & Hf & Hd & Hr) (Hi' & Hp' & Hc' & Hl' & Hf' & Hd' & Hr').
  unfold evolves. repeat split; try congruence; [auto|].
  intros j f Hj Hrev. destruct (Hr j f Hj Hrev) as (f' & Hj' & Hrev'). eauto.
Qed.

Lemma evolves_set_updatedAt now s s' :
  evolves s s' -> evolves s (set_updatedAt now s').
Proof. by destruct s'. Qed.

Lemma map_path_insert fs i f f' :
  fs !! i = Some f -> path f' = path f ->
  map path (<[i := f']> fs) = map path fs.
Proof.
  intros Hi Hp. change (map path) with (fmap (M := list) path).
  rewrite list_fmap_insert, Hp. apply list_insert_id.
  by rewrite list_lookup_fmap, Hi.
Qed.

(** The session object a tool call writes continues the stored session it
    was made from. *)
Lemma written_evolves st o s1 s :
  sessions st !! id s1 = Some s ->
  store_wf st -> fresh_id st o ->
  written st o s1 -> evolves s s1.
Proof.
  intros Hs Hwf Hfresh Hw.
  destruct Hw as [now newId ? ? ? ? ? ? ? l
                 | ? ? ? ? ? ? ? ? ? sid s0 Hs0 Hc0
                 | disk now key filePath review projectRoot sid s0 i0 f0 tokens
                     Hres Hs0 Hfind Htok
                 | ? ? sid s0 Hres Hs0 Hp]; simpl in Hs.
  - simpl in Hfresh. congruence.
  - rewrite (Hwf _ _ Hs0), Hs0 in Hs. injection Hs as <-.
    unfold evolves. repeat split; eauto.
  - rewrite (Hwf _ _ Hs0), Hs0 in Hs. injection Hs as <-.
    destruct (findIndex_lookup _ _ _ _ Hfind) as (Hi0 & _ & _).
    unfold evolves. simpl. repeat split; [by eapply map_path_insert|done|].
    intros j f Hj Hrev. destruct (decide (i0 = j)) as [->|Hne].
    + eexists. rewrite list_lookup_insert_eq by (by eapply lookup_lt_Some). done.
    + exists f. by rewrite list_lookup_insert_ne.
  - rewrite (Hwf _ _ Hs0), Hs0 in Hs. injection Hs as <-.
    unfold evolves. repeat split; eauto.
Qed.

Lemma step_evolves st o k s :
  store_wf st -> fresh_id st o ->
  sessions st !! k = Some s ->
  exists s', sessions (fst (step st o)) !! k = Some s' /\ evolves s s'.
Proof.
  intros Hwf Hfresh Hs.
  destruct (step_effect st o) as [E|(s1 & Hw & E)]; rewrite E.
  - exists s. split; [done|apply evolves_refl].
  - destruct (decide (id s1 = k)) as [Hid|Hne].
    + rewrite Hid, lookup_insert_eq. eexists. split; [reflexivity|].
      apply evolves_set_updatedAt. rewrite <- Hid in Hs.
      by eapply written_evolves.
    + rewrite lookup_insert_ne by done. exists s. split; [done|apply evolves_refl].
Qed.

Lemma trace_evolves st ops st' k s :
  trace st ops st' -> store_wf st ->
  sessions st !! k = Some s ->
  exists s', sessions st' !! k = Some s' /\ evolves s s'.
Proof.
  intros Htr. revert s. induction Htr as [st|st o ops st' Hfresh _ IH]; intros s Hwf Hs.
  - exists s. split; [done|apply evolves_refl].
  - destruct (step_evolves st o k s Hwf Hfresh Hs) as (s1 & Hs1 & Hev1).
    destruct (IH s1 (step_store_wf _ _ Hwf) Hs1) as (s' & Hs' & Hev').
    exists s'. split; [done|]. by eapply evolves_trans.
Qed.

(** X8. No sequence of tool calls deletes or re-identifies a session: a
    stored session stays stored under its id, with the same id, project
    folder, creation time and token limit, and the same paths in the same
    order. *)
Theorem session_identity_kept st ops st' k s :
  trace st ops st' -> store_wf st ->
  getSession st k = Some s ->
  exists s',
    getSession st' k = Some s' /\
    id s' = id s /\ projectFolder s' = projectFolder s /\
    createdAt s' = createdAt s /\ tokenLimit s' = tokenLimit s /\
    map path (files s') = map path (files s) /\
    length (files s') = length (files s).
Proof.
  intros Htr Hwf Hs.
  destruct (trace_evolves _ _ _ _ _ Htr Hwf Hs)
    as (s' & Hs' & Hi & Hp & Hc & Hl & Hf & _).
  exists s'. repeat split; try done.
  apply (f_equal length) in Hf. by rewrite !length_map in Hf.
Qed.

Lemma pendingCount_cons f fs :
  pendingCount (f :: fs) =
  ((if reviewed f then 0 else 1) + pendingCount fs)%nat.
Proof.
  unfold pendingCount. rewrite filter_cons.
  destruct (decide (reviewed f = false)) as [H|H].
  - rewrite H. reflexivity.
  - destruct (reviewed f); [reflexivity|done].
Qed.

Lemma pendingCount_monotone fs fs' :
  length fs = length fs' ->
  (forall j f f', fs !! j = Some f -> fs' !! j = Some f' ->
                  reviewed f = true -> reviewed f' = true) ->
  (pendingCount fs' <= pendingCount fs)%nat.
Proof.
  revert fs'. induction fs as [|f fs IH]; intros [|f' fs'] Hlen Hrev;
    try discriminate; [done|].
  rewrite !pendingCount_cons.
  assert (pendingCount fs' <= pendingCount fs)%nat as Hrest.
  { apply IH; [by injection Hlen|].
    intros j g g' Hg Hg'. apply (Hrev (S j)); done. }
  pose proof (Hrev O f f' eq_refl eq_refl) as Hhead.
  destruct (reviewed f); [rewrite Hhead by done|destruct (reviewed f')]; lia.
Qed.

(** X9. Progress is never undone: through any sequence of tool calls a
    completed session stays completed, a reviewed entry stays reviewed,
    and the number of unreviewed files does not grow. *)
Theorem progress_is_monotone st ops st' k s :
  trace st ops st' -> store_wf st ->
  getSession st k = Some s ->
  exists s',
    getSession st' k = Some s' /\
    (completed s = true -> completed s' = true) /\
    (forall j f, files s !! j = Some f -> reviewed f = true ->
                 exists f', files s' !! j = Some f' /\
                            path f' = path f /\ reviewed f' = true) /\
    (pendingCount (files s') <= pendingCount (files s))%nat.
Proof.
  intros Htr Hwf Hs.
  destruct (trace_evolves _ _ _ _ _ Htr Hwf Hs)
    as (s' & Hs' & _ & _ & _ & _ & Hpaths & Hdone & Hrev).
  exists s'. split; [done|]. split; [done|]. split.
  - intros j f Hj Hr. destruct (Hrev j f Hj Hr) as (f' & Hj' & Hr').
    exists f'. split; [done|]. split; [|done].
    apply (f_equal (fun l => l !! j)) in Hpaths.
    change (map path) with (fmap (M := list) path) in Hpaths.
    rewrite !list_lookup_fmap, Hj, Hj' in Hpaths. by injection Hpaths.
  - apply pendingCount_monotone.
    + apply (f_equal length) in Hpaths. by rewrite !length_map in Hpaths.
    + intros j f f' Hj Hj' Hr. destruct (Hrev j f Hj Hr) as (g & Hg & Hgr).
      congruence.
Qed.

(** ** The engine: counts *)

Lemma countToken_nonneg text : 0 <= countToken text.
Proof. unfold countToken. lia. Qed.

Lemma currentFileTokens_nonneg fileContent fb review :
  0 <= currentFileTokens fileContent fb review.
Proof.
  unfold currentFileTokens.
  pose proof (countToken_nonneg fileContent). pose proof (countToken_nonneg fb).
  pose proof (countToken_nonneg (default "" review)).
  destruct (truthy review); lia.
Qed.

Lemma sumTokenCounts_nonneg fs :
  (forall f t, f ∈ fs -> tokenCount f = Some t -> 0 <= t) ->
  0 <= sumTokenCounts fs.
Proof.
  induction fs as [|g fs IH]; intros Hall; [done|].
  rewrite sumTokenCounts_cons.
  assert (0 <= sumTokenCounts fs) by (apply IH; intros f t Hf; apply Hall; by right).
  destruct (tokenCount g) as [t|] eqn:Hg; simpl; [|lia].
  assert (0 <= t) by (apply (Hall g); [left|done]). lia.
Qed.

Lemma written_counts_nonneg st o s' :
  store_all counts_nonneg st -> written st o s' -> counts_nonneg s'.
Proof.
  intros Hall Hw. unfold counts_nonneg.
  destruct Hw as [now newId ? ? ? ? ? ? ? l
                 | ? ? ? ? ? ? ? ? ? sid s Hs _
                 | disk now key filePath review projectRoot sid s i f tokens
                     _ Hs Hfind Htok
                 | ? ? sid s _ Hs _]; simpl.
  - split; [done|]. split; [done|]. intros f t Hf.
    apply list_elem_of_fmap in Hf as (p & -> & _). discriminate.
  - destruct (Hall _ _ Hs) as (Ht & _ & Hf). split; [done|]. split; [done|done].
  - destruct (Hall _ _ Hs) as (_ & Hc & Hf).
    assert (0 <= tokens) as Hpos by (subst tokens; apply currentFileTokens_nonneg).
    assert (Hentries : forall g t, g ∈ <[i := reviewFile f true review None tokens]>
                                         (files s) ->
                                   tokenCount g = Some t -> 0 <= t).
    { intros g t Hg Ht. apply list_elem_of_lookup in Hg as [j Hj].
      destruct (decide (i = j)) as [<-|Hne].
      - destruct (decide (i < length (files s))%nat) as [Hlt|Hge].
        + rewrite list_lookup_insert_eq in Hj by done. injection Hj as <-.
          simpl in Ht. by injection Ht as <-.
        + rewrite list_insert_ge in Hj by lia.
          apply (Hf g); [apply list_elem_of_lookup; eauto|done].
      - rewrite list_lookup_insert_ne in Hj by done.
        apply (Hf g); [apply list_elem_of_lookup; eauto|done]. }
    split; [by apply sumTokenCounts_nonneg|]. split; [lia|done].
  - apply (Hall _ _ Hs).
Qed.

(** X10. In every store reached from the empty one, no count is
    negative: not a session's total, not its current-window count, not an
    entry's token count. *)
Theorem counts_never_negative ops st k s :
  trace empty_store ops st ->
  getSession st k = Some s ->
  0 <= totalTokenCount s /\
  0 <= currentSessionTokenCount s /\
  (forall f t, f ∈ files s -> tokenCount f = Some t -> 0 <= t).
Proof.
  intros Htr Hs. revert k s Hs.
  apply (trace_invariant (store_all counts_nonneg) _ _ _) in Htr; [exact Htr| |].
  - intros st0 o _ Hall.
    destruct (step_effect st0 o) as [E|(s' & Hw & E)];
      unfold store_all; rewrite E; [done|].
    intros k s. destruct (decide (id s' = k)) as [<-|Hne].
    + rewrite lookup_insert_eq. intros [= <-].
      pose proof (written_counts_nonneg _ _ _ Hall Hw) as H. by destruct s'.
    + rewrite lookup_insert_ne by done. apply Hall.
  - intros k s. unfold empty_store. simpl. by rewrite lookup_empty.
Qed.

(** ** The engine: answers and the store *)

(** X11. Only the four answers that report a change (resumed, created,
    submitted, completed) come with a write: with every other answer, an
    error or a token-limit or next-file answer, the store after the call
    is the store before it, index included. *)
Theorem refusals_write_nothing st o :
  is_success (snd (step st o)) = false -> fst (step st o) = st.
Proof.
  destruct o as [now newId listing projectRoot mode glob fileList limit forceNew
                | key | disk now key filePath review projectRoot | now key]; simpl.
  - unfold start_review_session.
    assert (Hres : forall (b : bool) st' r,
              (if b then resume_existing st now projectRoot else None) = Some (st', r) ->
              is_success r = true).
    { intros b st' r Hb. destruct b; [|discriminate].
      by apply resume_existing_effect in Hb as (sid & s & _ & _ & _ & _ & ->). }
    destruct (if is_resume mode && negb (default false forceNew)
              then resume_existing st now projectRoot else None)
      as [[st1 r1]|] eqn:E1.
    { simpl. rewrite (Hres _ _ _ E1). discriminate. }
    destruct (if negb (default false forceNew) && negb (is_resume mode)
              then resume_existing st now projectRoot else None)
      as [[st2 r2]|] eqn:E2.
    { simpl. rewrite (Hres _ _ _ E2). discriminate. }
    match goal with
    | |- context [match ?d with inl _ => _ | inr _ => _ end] => destruct d as [r|l]
    end; [done|]. simpl. discriminate.
  - done.
  - unfold submit_file_review.
    destruct (resolve_key st key) as [sid|]; [|done].
    destruct (updateFileReview _ _ _ _ _ _ _ _) as [[st' s']|]; [|done].
    simpl. discriminate.
  - unfold complete_review_session.
    destruct (resolve_key st key) as [sid|]; [|done].
    destruct (getSession st sid) as [s|]; [|done].
    destruct (Nat.ltb 0 (pendingCount (files s))); [done|].
    destruct (completeSession st now sid) as [[st' s']|]; [|done].
    simpl. discriminate.
Qed.

Lemma resolve_key_after_save st key sessionId s s' :
  resolve_key st key = Some sessionId ->
  getSession st sessionId = Some s ->
  resolve_key {| sessions := <[sessionId := s']> (sessions st);
                 projectIndex := projectIndex st |} key = Some sessionId.
Proof.
  intros Hres Hget. unfold resolve_key, getSession in *. simpl.
  destruct (decide (sessionId = key)) as [->|Hne].
  - by rewrite lookup_insert_eq.
  - rewrite lookup_insert_ne by done.
    destruct (sessions st !! key) as [s0|] eqn:Hk; [|done].
    by injection Hres as ->.
Qed.

(** X12. The [exceedsTokenLimit] flag of a submission tells what the next
    get-next-review-file will say: after a submission answered with the
    flag set, the next-file call for the same key answers with one of the
    two token-limit statuses; after one answered with the flag clear, it
    does not. *)
Theorem exceeds_flag_matches_next st disk now key filePath review projectRoot
    st' s' exceeds :
  store_wf st ->
  submit_file_review st disk now key filePath review projectRoot =
    (st', Submitted s' exceeds) ->
  is_limit_status (get_next_review_file st' key) = exceeds.
Proof.
  intros Hwf Hsub.
  assert (exists sid s i f,
            resolve_key st key = Some sid /\ getSession st sid = Some s /\
            findIndex filePath (files s) = Some (i, f))
    as (sid & s & i & f & Hres & Hget & Hfind).
  { unfold submit_file_review, updateFileReview in Hsub.
    destruct (resolve_key st key) as [sid|] eqn:Hres; [|discriminate].
    destruct (getSession st sid) as [s|] eqn:Hget; [|discriminate].
    destruct (findIndex filePath (files s)) as [[i f]|] eqn:Hfind; [|discriminate].
    by exists sid, s, i, f. }
  rewrite (submit_file_review_found _ disk now _ _ review projectRoot _ _ _ _
             Hres Hget Hfind) in Hsub.
  rewrite (Hwf _ _ Hget) in Hsub. injection Hsub as <- <- <-.
  unfold get_next_review_file.
  rewrite (resolve_key_after_save _ _ _ _ _ Hres Hget).
  unfold getSession at 1. simpl sessions. rewrite lookup_insert_eq.
  destruct (_ >? _); [by destruct (Nat.eqb _ _)|].
  by destruct (getNextFileToReview _ _).
Qed.

Lemma start_review_session_resumed st now newId listing projectRoot mode glob
    fileList limit forceNew sessionId s :
  default false forceNew = false ->
  getSessionIdForProject st projectRoot = Some sessionId ->
  getSession st sessionId = Some s ->
  completed s = false ->
  start_review_session st now newId listing projectRoot mode glob fileList
    limit forceNew =
  ({| sessions := <[id s := set_updatedAt now (resetWindow s)]> (sessions st);
      projectIndex := projectIndex st |},
   Resumed (set_updatedAt now (resetWindow s))).
Proof.
  intros Hforce Hidx Hget Hc. unfold start_review_session.
  rewrite Hforce. simpl negb.
  rewrite (resume_existing_found _ now _ _ _ Hidx Hget Hc).
  destruct (is_resume mode); reflexivity.
Qed.


(** ** The engine: creating a session *)

Lemma resume_existing_None st now projectRoot :
  (forall sessionId s,
     getSessionIdForProject st projectRoot = Some sessionId ->
     getSession st sessionId = Some s -> completed s = true) ->
  resume_existing st now projectRoot = None.
Proof.
  intros H. unfold resume_existing.
  destruct (getSessionIdForProject st projectRoot) as [sid|]; [|done].
  destruct (getSession st sid) as [s|] eqn:Hs; [|done].
  by rewrite (H sid s).
Qed.

Lemma pendingCount_new l : pendingCount (map newReviewFile l) = length l.
Proof.
  induction l as [|x l IH]; [done|].
  simpl map. rewrite pendingCount_cons, IH. reflexivity.
Qed.

(** X14. A start with a non-empty file list creates a session whenever it
    is forced to, or the project has no stored session that is still
    open: the new record is stored under the generated id with one
    unreviewed entry per listed path, in order; the index now names it;
    every record stored before is still there, unchanged, the superseded
    one included; and the first get-next-review-file hands out the first
    listed path, unless the limit is negative. *)
Theorem start_review_session_creates st now newId listing projectRoot mode glob
    x l limit forceNew :
  (default false forceNew = true \/
   forall sessionId s,
     getSessionIdForProject st projectRoot = Some sessionId ->
     getSession st sessionId = Some s -> completed s = true) ->
  getSession st newId = None ->
  newId <> "" ->
  exists st' s,
    start_review_session st now newId listing projectRoot mode glob
      (Some (x :: l)) limit forceNew = (st', Created s) /\
    getSession st' newId = Some s /\
    getSessionIdForProject st' projectRoot = Some newId /\
    (forall k s0, getSession st k = Some s0 -> getSession st' k = Some s0) /\
    (forall p, p <> projectRoot -> projectIndex st' !! p = projectIndex st !! p) /\
    map path (files s) = x :: l /\
    pendingCount (files s) = length (x :: l) /\
    tokenLimit s = default 10000 limit /\
    totalTokenCount s = 0 /\ currentSessionTokenCount s = 0 /\
    completed s = false /\
    get_next_review_file st' newId =
      (if default 10000 limit <? 0
       then TokenLimitExceeded 0 (default 10000 limit) (length (x :: l))
       else NextFile x).
Proof.
  intros Hcreate Hfresh Hid.
  exists (fst (createSession st now newId projectRoot (x :: l) (default 10000 limit))),
         (set_updatedAt now
            (newSession now newId projectRoot (x :: l) (default 10000 limit))).
  split.
  { unfold start_review_session.
    assert (Hno : forall b : bool,
              (if b && negb (default false forceNew)
               then resume_existing st now projectRoot else None) = None).
    { intros b. destruct Hcreate as [->|Hnone].
      - by rewrite andb_false_r.
      - rewrite resume_existing_None by done. by destruct (_ && _). }
    rewrite (Hno (is_resume mode)).
    rewrite andb_comm, (Hno (negb (is_resume mode))). reflexivity. }
  unfold getSession in *. simpl sessions. rewrite lookup_insert_eq.
  split; [reflexivity|]. split.
  { unfold getSessionIdForProject. simpl. rewrite lookup_insert_eq. simpl.
    destruct (String.eqb_spec newId ""); [done|reflexivity]. }
  split.
  { intros k s0 Hk. rewrite lookup_insert_ne; [done|]. congruence. }
  split; [intros p Hp; simpl; by rewrite lookup_insert_ne|].
  assert (Hpaths : forall l0, map path (map newReviewFile l0) = l0).
  { induction l0 as [|y l0 IH]; [done|]. simpl. by rewrite IH. }
  split; [exact (Hpaths (x :: l))|].
  split; [exact (pendingCount_new (x :: l))|].
  do 4 (split; [reflexivity|]).
  unfold get_next_review_file, resolve_key, getNextFileToReview, getSession.
  simpl sessions. rewrite !lookup_insert_eq. cbn beta iota.
  simpl currentSessionTokenCount. simpl tokenLimit. rewrite Z.gtb_ltb.
  destruct (default 10000 limit <? 0); [|reflexivity].
  simpl files. rewrite pendingCount_cons, pendingCount_new. reflexivity.
Qed.

(** ** The engine: reviewing every file *)

Lemma run_cons st o ops :
  run st (o :: ops) = run (fst (step st o)) ops.
Proof. reflexivity. Qed.

Lemma resolve_key_stored st sessionId s :
  getSession st sessionId = Some s -> resolve_key st sessionId = Some sessionId.
Proof. intros H. unfold resolve_key. by rewrite H. Qed.

(** Submitting each of [paths] to the session stored under [sessionId]:
    afterwards every entry whose path was submitted is reviewed, the
    entries reviewed before still are, and the paths are the same. *)
Lemma submit_each_reviews disk now review projectRoot sessionId paths :
  forall st s (done : list string),
    store_wf st ->
    getSession st sessionId = Some s ->
    NoDup (map path (files s)) ->
    (forall p, p ∈ paths -> p ∈ map path (files s)) ->
    (forall j f, files s !! j = Some f -> path f ∈ done -> reviewed f = true) ->
    exists s',
      getSession (run st (submit_each disk now sessionId review projectRoot paths))
        sessionId = Some s' /\
      map path (files s') = map path (files s) /\
      (forall j f, files s' !! j = Some f -> path f ∈ (done ++ paths)%list ->
                   reviewed f = true).
Proof.
  induction paths as [|p paths IH]; intros st s done Hwf Hget Hnodup Hin Hdone.
  - exists s. split; [done|]. split; [done|]. by rewrite app_nil_r.
  - simpl submit_each. rewrite run_cons. simpl step.
    destruct (findIndex p (files s)) as [[i f0]|] eqn:Hfind.
    2:{ apply findIndex_None in Hfind. exfalso. apply Hfind, Hin. left. }
    rewrite (submit_file_review_found _ disk now _ _ review projectRoot _ _ _ _
               (resolve_key_stored _ _ _ Hget) Hget Hfind).
    cbv zeta. simpl fst. rewrite (Hwf _ _ Hget).
    destruct (findIndex_lookup _ _ _ _ Hfind) as (Hi & Hp & _).
    match goal with
    | |- context [<[sessionId := ?s1]> (sessions st)] => set (s1' := s1)
    end.
    set (st1 := {| sessions := <[sessionId := s1']> (sessions st);
                   projectIndex := projectIndex st |}).
    assert (Hpaths1 : map path (files s1') = map path (files s)).
    { subst s1'. simpl. by eapply map_path_insert. }
    destruct (IH st1 s1' (done ++ [p])%list) as (s' & Hs' & Hpaths' & Hrev').
    + intros k s0. subst st1. simpl. destruct (decide (sessionId = k)) as [<-|Hne].
      * rewrite lookup_insert_eq. intros [= <-]. subst s1'. simpl.
        apply (Hwf _ _ Hget).
      * rewrite lookup_insert_ne by done. apply Hwf.
    + subst st1. unfold getSession. simpl. by rewrite lookup_insert_eq.
    + by rewrite Hpaths1.
    + intros q Hq. rewrite Hpaths1. apply Hin. by right.
    + intros j g Hj Hg. subst s1'. simpl in Hj.
      destruct (decide (i = j)) as [<-|Hne].
      * rewrite list_lookup_insert_eq in Hj by (by eapply lookup_lt_Some).
        by injection Hj as <-.
      * rewrite list_lookup_insert_ne in Hj by done.
        apply elem_of_app in Hg as [Hg|Hg]; [by apply (Hdone j g)|].
        apply list_elem_of_singleton in Hg. exfalso. apply Hne.
        apply (NoDup_lookup (map path (files s)) i j p Hnodup).
        -- change (map path) with (fmap (M := list) path).
           by rewrite list_lookup_fmap, Hi, <- Hp.
        -- change (map path) with (fmap (M := list) path).
           rewrite list_lookup_fmap, Hj. simpl. by rewrite Hg.
    + exists s'. split; [exact Hs'|]. split; [congruence|].
      intros j g Hj Hg. apply (Hrev' j g Hj).
      rewrite <- app_assoc. exact Hg.
Qed.

(** X15. The plain course of a review: a session created from a list of
    distinct paths, followed by one submission per path in list order,
    can be completed - complete-review-session then answers "completed"
    with no file pending.  No budget enters: submissions are accepted
    whatever the token counts are. *)
Theorem review_each_then_complete st0 now newId projectFolder fileList limit
    disk now1 review projectRoot now2 :
  store_wf st0 ->
  NoDup fileList ->
  exists st3 s,
    complete_review_session
      (run (fst (createSession st0 now newId projectFolder fileList limit))
           (submit_each disk now1 newId review projectRoot fileList))
      now2 newId = (st3, Completed s) /\
    completed s = true /\
    pendingCount (files s) = O /\
    map path (files s) = fileList.
Proof.
  intros Hwf Hnodup.
  set (st1 := fst (createSession st0 now newId projectFolder fileList limit)).
  set (s1 := set_updatedAt now (newSession now newId projectFolder fileList limit)).
  assert (Hpaths1 : map path (files s1) = fileList).
  { subst s1. simpl. clear. induction fileList as [|y l0 IH]; [done|].
    simpl. by rewrite IH. }
  destruct (submit_each_reviews disk now1 review projectRoot newId fileList
              st1 s1 []) as (s' & Hs' & Hpaths' & Hrev').
  - by apply createSession_store_wf.
  - subst st1 s1. unfold getSession. simpl. by rewrite lookup_insert_eq.
  - by rewrite Hpaths1.
  - intros p Hp. by rewrite Hpaths1.
  - intros j f _ Hf. inversion Hf.
  - assert (Hnone : pendingCount (files s') = O).
    { apply pendingCount_zero. intros f Hf.
      apply list_elem_of_lookup in Hf as [j Hj]. apply (Hrev' j f Hj).
      simpl. rewrite <- Hpaths1, <- Hpaths'.
      apply list_elem_of_fmap. exists f. split; [done|].
      apply list_elem_of_lookup. eauto. }
    unfold complete_review_session, completeSession.
    rewrite (resolve_key_stored _ _ _ Hs'), Hs', Hnone. simpl.
    do 2 eexists. split; [reflexivity|]. simpl.
    split; [done|]. split; [done|]. congruence.
Qed.

(** X16. Once a file has been submitted, get-next-review-file never names
    it again, through any later tool calls, provided the session lists no
    path twice. *)
Theorem submitted_file_not_handed_out_again st disk now key filePath review
    projectRoot st' s' exceeds ops st'' key' :
  store_wf st ->
  submit_file_review st disk now key filePath review projectRoot =
    (st', Submitted s' exceeds) ->
  NoDup (map path (files s')) ->
  trace st' ops st'' ->
  resolve_key st'' key' = Some (id s') ->
  get_next_review_file st'' key' <> NextFile filePath.
Proof.
  intros Hwf Hsub Hnodup Htr Hres'.
  assert (exists sid s i f,
            resolve_key st key = Some sid /\ getSession st sid = Some s /\
            findIndex filePath (files s) = Some (i, f))
    as (sid & s & i & f & Hres & Hget & Hfind).
  { unfold submit_file_review, updateFileReview in Hsub.
    destruct (resolve_key st key) as [sid|] eqn:Hres; [|discriminate].
    destruct (getSession st sid) as [s|] eqn:Hget; [|discriminate].
    destruct (findIndex filePath (files s)) as [[i f]|] eqn:Hfind; [|discriminate].
    by exists sid, s, i, f. }
  pose proof (step_store_wf st (OpSubmit disk now key filePath review projectRoot) Hwf)
    as Hwf'. simpl in Hwf'. rewrite Hsub in Hwf'. simpl in Hwf'.
  rewrite (submit_file_review_found _ disk now _ _ review projectRoot _ _ _ _
             Hres Hget Hfind) in Hsub.
  destruct (findIndex_lookup _ _ _ _ Hfind) as (Hi & Hp & _).
  injection Hsub as <- <- <-.
  match goal with
  | H : NoDup (map path (files ?x)) |- _ => set (s1 := x) in *
  end.
  assert (Hs1 : sessions
                  {| sessions := <[id s := s1]> (sessions st);
                     projectIndex := projectIndex st |} !! id s1 = Some s1).
  { simpl. subst s1. simpl. by rewrite lookup_insert_eq. }
  destruct (trace_evolves _ _ _ _ _ Htr Hwf' Hs1)
    as (s2 & Hs2 & _ & _ & _ & _ & Hpaths & _ & Hrev).
  assert (Hi1 : files s1 !! i = Some (reviewFile f true review None
                  (currentFileTokens
                     (default ""
                        (disk (path_join
                                 (if truthy projectRoot
                                  then default "" projectRoot else key) filePath)))
                     review None))).
  { subst s1. simpl. by rewrite list_lookup_insert_eq by (by eapply lookup_lt_Some). }
  destruct (Hrev _ _ Hi1 eq_refl) as (f2 & Hi2 & Hrev2).
  unfold get_next_review_file, getNextFileToReview. rewrite Hres'.
  unfold getSession. rewrite Hs2.
  destruct (_ >? _); [by destruct (Nat.eqb _ _)|].
  destruct (list_find _ (files s2)) as [[j g]|] eqn:Hnext; simpl; [|done].
  intros [= Hg]. apply list_find_Some in Hnext as (Hj & Hunrev & _).
  assert (i = j) as ->.
  { rewrite <- Hpaths in Hnodup.
    apply (NoDup_lookup (map path (files s2)) i j filePath Hnodup).
    - apply (f_equal (fun l => l !! i)) in Hpaths.
      change (map path) with (fmap (M := list) path) in *.
      rewrite Hpaths, list_lookup_fmap, Hi1. simpl. by rewrite Hp.
    - change (map path) with (fmap (M := list) path).
      rewrite list_lookup_fmap, Hj. simpl. by rewrite Hg. }
  congruence.
Qed.

(** ** The engine: resuming twice *)

(** X17. Resuming is idempotent up to the time stamp: a second resume of
    the same project, whatever its other arguments, leaves the store and
    gives the answer that a single resume at the second call's time would
    have. *)
Theorem resume_twice st now1 newId1 listing1 mode1 glob1 fileList1 limit1 forceNew1
    now2 newId2 listing2 mode2 glob2 fileList2 limit2 forceNew2
    projectRoot sessionId s :
  default false forceNew1 = false ->
  default false forceNew2 = false ->
  getSessionIdForProject st projectRoot = Some sessionId ->
  getSession st sessionId = Some s ->
  id s = sessionId ->
  completed s = false ->
  start_review_session
    (fst (start_review_session st now1 newId1 listing1 projectRoot mode1 glob1
            fileList1 limit1 forceNew1))
    now2 newId2 listing2 projectRoot mode2 glob2 fileList2 limit2 forceNew2 =
  start_review_session st now2 newId2 listing2 projectRoot mode2 glob2
    fileList2 limit2 forceNew2.
Proof.
  intros Hf1 Hf2 Hidx Hget Hid Hc.
  rewrite (start_review_session_resumed st now1 _ _ _ _ _ _ _ _ _ _ Hf1 Hidx Hget Hc).
  rewrite (start_review_session_resumed st now2 _ _ _ _ _ _ _ _ _ _ Hf2 Hidx Hget Hc).
  simpl fst. rewrite Hid.
  rewrite (start_review_session_resumed _ now2 _ _ _ _ _ _ _ _ sessionId
             (set_updatedAt now1 (resetWindow s)) Hf2).
  - simpl id. rewrite Hid. simpl sessions. by rewrite insert_insert_eq.
  - exact Hidx.
  - unfold getSession. simpl. by rewrite lookup_insert_eq.
  - exact Hc.
Qed.

(** ** Reading a review back *)

Lemma list_find_insert_same {A} (P : A -> Prop) `{!forall x, Decision (P x)}
    (l : list A) i x y :
  list_find P l = Some (i, x) -> P y ->
  list_find P (<[i := y]> l) = Some (i, y).
Proof.
  intros Hfind Hy. apply list_find_Some in Hfind as (Hi & Hx & Hfirst).
  apply list_find_Some. split.
  - by rewrite list_lookup_insert_eq by (by eapply lookup_lt_Some).
  - split; [done|]. intros j z Hj Hlt.
    rewrite list_lookup_insert_ne in Hj by lia. by apply (Hfirst j).
Qed.

(** X18. What a submission with feedback and agent review stores can be
    read back: get-file-review for the same key and path then returns the
    path, reviewed = true, the feedback as submitted, and the agent
    review as submitted - or, when the submitted agent review is empty,
    the one stored before (the empty text if there was none). *)
Theorem submit_then_get_file_review st disk now key filePath fb review
    projectRoot sessionId s i f :
  store_wf st ->
  resolve_key st key = Some sessionId ->
  getSession st sessionId = Some s ->
  findIndex filePath (files s) = Some (i, f) ->
  exists st' s' exceeds,
    submit_file_review_feedback st disk now key filePath fb review projectRoot =
      (st', Submitted s' exceeds) /\
    get_file_review st' key filePath =
      FileReviewed filePath true
        (if String.eqb review "" then default "" (agentReview f) else review)
        fb.
Proof.
  intros Hwf Hres Hget Hfind.
  unfold submit_file_review_feedback, updateFileReview.
  rewrite Hres, Hget, Hfind. do 3 eexists. split; [reflexivity|].
  simpl fst. simpl id. rewrite (Hwf _ _ Hget).
  unfold get_file_review.
  rewrite (resolve_key_after_save _ _ _ _ _ Hres Hget).
  unfold getSession. simpl sessions. rewrite lookup_insert_eq. simpl files.
  destruct (findIndex_lookup _ _ _ _ Hfind) as (_ & Hp & _).
  unfold findIndex in Hfind.
  erewrite list_find_insert_same; [|exact Hfind|exact Hp].
  simpl. rewrite Hp. by destruct (String.eqb review "").
Qed.

(** ** The status report *)



(** ** File discovery *)

Lemma filter_from_elem {A} (keep : A -> nat -> list A -> bool) self i l x :
  x ∈ filter_from keep self i l <->
  exists k, l !! k = Some x /\ keep x (i + k)%nat self = true.
Proof.
  revert i. induction l as [|y l IH]; intros i; simpl.
  - split; [intros H; inversion H|]. by intros (k & Hk & _).
  - split.
    + intros Hx. destruct (keep y i self) eqn:Hy.
      * apply elem_of_cons in Hx as [->|Hx].
        -- exists O. by rewrite Nat.add_0_r.
        -- apply IH in Hx as (k & Hk & Hkeep). exists (S k).
           by replace (i + S k)%nat with (S i + k)%nat by lia.
      * apply IH in Hx as (k & Hk & Hkeep). exists (S k).
        by replace (i + S k)%nat with (S i + k)%nat by lia.
    + intros ([|k] & Hk & Hkeep); simpl in Hk.
      * injection Hk as ->. rewrite Nat.add_0_r in Hkeep. rewrite Hkeep. left.
      * assert (x ∈ filter_from keep self (S i) l).
        { apply IH. exists k. by replace (S i + k)%nat with (i + S k)%nat by lia. }
        destruct (keep y i self); [by right|done].
Qed.

Lemma filter_from_sublist {A} (keep : A -> nat -> list A -> bool) self i l :
  sublist (filter_from keep self i l) l.
Proof.
  revert i. induction l as [|y l IH]; intros i; simpl; [constructor|].
  destruct (keep y i self); [by apply sublist_skip|by apply sublist_cons].
Qed.

Lemma filter_from_NoDup {A} (keep : A -> nat -> list A -> bool) self i l :
  (forall k k' x, l !! k = Some x -> l !! k' = Some x ->
                  keep x (i + k)%nat self = true ->
                  keep x (i + k')%nat self = true -> k = k') ->
  NoDup (filter_from keep self i l).
Proof.
  revert i. induction l as [|y l IH]; intros i Huniq; simpl; [constructor|].
  assert (NoDup (filter_from keep self (S i) l)) as Hrest.
  { apply IH. intros k k' x Hk Hk' Hkeep Hkeep'.
    assert (S k = S k') as Heq; [|lia].
    apply (Huniq (S k) (S k') x); try done.
    - by replace (i + S k)%nat with (S i + k)%nat by lia.
    - by replace (i + S k')%nat with (S i + k')%nat by lia. }
  destruct (keep y i self) eqn:Hy; [|done].
  constructor; [|done]. intros Hin.
  apply filter_from_elem in Hin as (k & Hk & Hkeep).
  assert (O = S k) as Heq; [|lia].
  apply (Huniq O (S k) y); try done.
  - by rewrite Nat.add_0_r.
  - by replace (i + S k)%nat with (S i + k)%nat by lia.
Qed.

Lemma indexOf_elem x l : x ∈ l -> exists k, indexOf x l = Some k /\ l !! k = Some x.
Proof.
  intros Hx. unfold indexOf.
  destruct (list_find_elem_of (fun y => y = x) l x Hx eq_refl) as [[k y] Hfind].
  rewrite Hfind. apply list_find_Some in Hfind as (Hk & -> & _).
  exists k. done.
Qed.

(** Keeping first occurrences: no repetition, the same members, the same
    order. *)
Lemma filter_unique_spec l :
  NoDup (filter_indexed filterUnique l) /\
  (forall x, x ∈ filter_indexed filterUnique l <-> x ∈ l) /\
  sublist (filter_indexed filterUnique l) l.
Proof.
  unfold filter_indexed. split; [|split].
  - apply filter_from_NoDup. intros k k' x _ _ Hk Hk'.
    unfold filterUnique in *. apply bool_decide_eq_true in Hk, Hk'.
    simpl in *. congruence.
  - intros x. rewrite filter_from_elem. split.
    + intros (k & Hk & _). apply list_elem_of_lookup. eauto.
    + intros Hx. destruct (indexOf_elem _ _ Hx) as (k & Hidx & Hk).
      exists k. split; [done|]. unfold filterUnique. simpl.
      by apply bool_decide_eq_true.
  - apply filter_from_sublist.
Qed.

Lemma normalizeFilePath_snd cache disk fileList root :
  snd (normalizeFilePath cache disk fileList root) =
  let filtered :=
    filter (fun f => filterEmptyFile f = true)
      (filter_indexed filterUnique
         (filter (fun f => filterBinaryFile f = true) fileList)) in
  if truthy root
  then filter (fun f => ignores (snd (getIgnoreInstance cache disk (default "" root))) f
                        = false) filtered
  else filtered.
Proof.
  unfold normalizeFilePath. destruct (truthy root); [|done].
  by destruct (getIgnoreInstance cache disk (default "" root)).
Qed.

(** X20. What [normalizeFilePath] returns: a list without repetition, in
    the order of the input, whose members are exactly the input paths
    that have no binary extension, are not blank, and - when a root is
    given - are not ignored by the root's ignore patterns. *)
Theorem normalizeFilePath_spec cache disk fileList root :
  let result := snd (normalizeFilePath cache disk fileList root) in
  NoDup result /\
  sublist result fileList /\
  (forall p,
     p ∈ result <->
     p ∈ fileList /\ filterBinaryFile p = true /\ filterEmptyFile p = true /\
     (truthy root = true ->
      ignores (snd (getIgnoreInstance cache disk (default "" root))) p = false)).
Proof.
  cbv zeta. rewrite normalizeFilePath_snd. cbv zeta.
  set (bin := filter (fun f => filterBinaryFile f = true) fileList).
  destruct (filter_unique_spec bin) as (Hnd & Hmem & Hsub).
  assert (Hbase :
    forall p, p ∈ filter (fun f => filterEmptyFile f = true)
                    (filter_indexed filterUnique bin) <->
              p ∈ fileList /\ filterBinaryFile p = true /\ filterEmptyFile p = true).
  { intros p. rewrite list_elem_of_filter, Hmem. subst bin.
    rewrite list_elem_of_filter. tauto. }
  assert (Hsubl : sublist (filter (fun f => filterEmptyFile f = true)
                             (filter_indexed filterUnique bin)) fileList).
  { etrans; [apply sublist_filter|]. etrans; [exact Hsub|]. apply sublist_filter. }
  destruct (truthy root).
  - split; [by do 2 apply NoDup_filter|].
    split; [etrans; [apply sublist_filter|exact Hsubl]|].
    intros p. rewrite list_elem_of_filter, Hbase. tauto.
  - split; [by apply NoDup_filter|]. split; [exact Hsubl|].
    intros p. rewrite Hbase. split; [|tauto]. intros (?&?&?). done.
Qed.

Lemma filter_all {A} (P : A -> Prop) `{!forall x, Decision (P x)} (l : list A) :
  (forall x, x ∈ l -> P x) -> filter P l = l.
Proof.
  induction l as [|x l IH]; intros Hall; [done|].
  rewrite filter_cons_True by (apply Hall; left).
  f_equal. apply IH. intros y Hy. apply Hall. by right.
Qed.

Lemma filter_from_all {A} (keep : A -> nat -> list A -> bool) self i l :
  (forall k x, l !! k = Some x -> keep x (i + k)%nat self = true) ->
  filter_from keep self i l = l.
Proof.
  revert i. induction l as [|y l IH]; intros i Hall; simpl; [done|].
  pose proof (Hall O y eq_refl) as Hy. rewrite Nat.add_0_r in Hy. rewrite Hy.
  f_equal. apply IH. intros k x Hk.
  replace (S i + k)%nat with (i + S k)%nat by lia. by apply Hall.
Qed.

Lemma filter_unique_NoDup l : NoDup l -> filter_indexed filterUnique l = l.
Proof.
  intros Hnd. apply filter_from_all. intros k x Hk. simpl.
  unfold filterUnique. apply bool_decide_eq_true.
  destruct (indexOf_elem x l) as (j & Hidx & Hj).
  { apply list_elem_of_lookup. eauto. }
  rewrite Hidx. f_equal. by apply (NoDup_lookup l j k x).
Qed.

(** Once an instance is cached for a root, asking again for that root
    returns it without reading the disk. *)
Lemma getIgnoreInstance_cached cache disk disk' root :
  getIgnoreInstance (fst (getIgnoreInstance cache disk root)) disk' root =
  getIgnoreInstance cache disk root.
Proof.
  unfold getIgnoreInstance. destruct cache as [[igRoot patterns]|]; simpl.
  - destruct (String.eqb igRoot root) eqn:E; simpl.
    + by rewrite E.
    + by rewrite String.eqb_refl.
  - by rewrite String.eqb_refl.
Qed.

Lemma normalizeFilePath_fst cache disk fileList root :
  fst (normalizeFilePath cache disk fileList root) =
  if truthy root then fst (getIgnoreInstance cache disk (default "" root))
  else cache.
Proof.
  unfold normalizeFilePath. destruct (truthy root); [|done].
  by destruct (getIgnoreInstance cache disk (default "" root)).
Qed.

(** X21. [normalizeFilePath] is idempotent: run again on its own result,
    with the cache the first run left, it returns that result, whatever
    is on disk by then. *)
Theorem normalizeFilePath_idempotent cache disk disk' fileList root :
  snd (normalizeFilePath (fst (normalizeFilePath cache disk fileList root)) disk'
         (snd (normalizeFilePath cache disk fileList root)) root)
  = snd (normalizeFilePath cache disk fileList root).
Proof.
  set (result := snd (normalizeFilePath cache disk fileList root)).
  assert (Hnd : NoDup result /\
                (forall p, p ∈ result ->
                   filterBinaryFile p = true /\ filterEmptyFile p = true /\
                   (truthy root = true ->
                    ignores (snd (getIgnoreInstance cache disk (default "" root))) p
                    = false))).
  { subst result. rewrite normalizeFilePath_snd. cbv zeta.
    set (bin := filter (fun f => filterBinaryFile f = true) fileList).
    destruct (filter_unique_spec bin) as (Hnd & Hmem & _).
    assert (Hbase :
      forall p, p ∈ filter (fun f => filterEmptyFile f = true)
                      (filter_indexed filterUnique bin) ->
                filterBinaryFile p = true /\ filterEmptyFile p = true).
    { intros p. rewrite list_elem_of_filter, Hmem. subst bin.
      rewrite list_elem_of_filter. tauto. }
    destruct (truthy root).
    - split; [by do 2 apply NoDup_filter|].
      intros p Hp. apply list_elem_of_filter in Hp as [Hig Hp].
      destruct (Hbase p Hp). auto.
    - split; [by apply NoDup_filter|].
      intros p Hp. destruct (Hbase p Hp). split; [done|]. split; [done|]. done. }
  destruct Hnd as [Hnd Hmem].
  rewrite normalizeFilePath_snd. cbv zeta.
  rewrite (filter_all (fun f => filterBinaryFile f = true) result)
    by (intros p Hp; apply (Hmem p Hp)).
  rewrite (filter_unique_NoDup result Hnd).
  rewrite (filter_all (fun f => filterEmptyFile f = true) result)
    by (intros p Hp; apply (Hmem p Hp)).
  rewrite normalizeFilePath_fst.
  destruct (truthy root) eqn:Hroot; [|done].
  rewrite getIgnoreInstance_cached.
  apply filter_all. intros p Hp. by apply (Hmem p Hp).
Qed.

(** X22. The ignore patterns are read once per root: after a listing for
    a root, every later listing for the same root filters with the
    patterns read then, whatever the root's [.gitignore] holds by that
    time; a listing for another root in between makes the next one read
    the file again. *)
Theorem ignore_patterns_cached cache disk1 fileList1 root disk2 :
  truthy (Some root) = true ->
  let cache1 := fst (normalizeFilePath cache disk1 fileList1 (Some root)) in
  (forall fileList2,
     normalizeFilePath cache1 disk2 fileList2 (Some root) =
     (cache1,
      filter (fun f => ignores (snd (getIgnoreInstance cache disk1 root)) f = false)
        (snd (normalizeFilePath cache1 disk2 fileList2 None)))) /\
  (forall other disk3 fileList3,
     truthy (Some other) = true -> other <> root ->
     snd (getIgnoreInstance
            (fst (normalizeFilePath cache1 disk2 fileList3 (Some other))) disk3 root)
     = default "" (disk3 (path_join root ".gitignore"))).
Proof.
  intros Hroot cache1.
  assert (Hc1 : cache1 = fst (getIgnoreInstance cache disk1 root)).
  { subst cache1. rewrite normalizeFilePath_fst. by rewrite Hroot. }
  split.
  - intros fileList2. unfold normalizeFilePath at 1. rewrite Hroot. simpl default.
    rewrite Hc1, getIgnoreInstance_cached.
    destruct (getIgnoreInstance cache disk1 root) as [c p] eqn:E. reflexivity.
  - intros other disk3 fileList3 Hother Hne.
    rewrite normalizeFilePath_fst, Hother. simpl default.
    assert (Hload : forall c d, exists p,
              fst (getIgnoreInstance c d other) = Some (other, p)).
    { intros c d. unfold getIgnoreInstance. destruct c as [[r p]|]; simpl.
      - destruct (String.eqb_spec r other) as [->|]; simpl; eauto.
      - eauto. }
    destruct (Hload cache1 disk2) as [p ->].
    unfold getIgnoreInstance.
    destruct (String.eqb_spec other root); [done|reflexivity].
Qed.

(** ** Command line *)

Lemma split_on_no_sep sep s : has_char sep s = false -> split_on sep s = [s].
Proof.
  induction s as [|c s IH]; [done|]. simpl.
  destruct (Ascii.eqb c sep); [done|]. simpl. intros H. by rewrite IH.
Qed.

Lemma split_on_app sep k rest :
  has_char sep k = false ->
  split_on sep (k ++ String sep rest)%string = k :: split_on sep rest.
Proof.
  induction k as [|c k IH]; intros Hk.
  - change (("" ++ String sep rest)%string) with (String sep rest). simpl.
    by rewrite Ascii.eqb_refl.
  - change ((String c k ++ String sep rest)%string)
      with (String c (k ++ String sep rest)%string).
    simpl in *. destruct (Ascii.eqb c sep); [done|]. simpl in Hk.
    by rewrite IH.
Qed.





(** X24. Arguments of any other shape change nothing: one that does not
    start with two dashes, one without an equals sign, one with an empty
    key, and one with an empty value are all skipped. *)
Theorem parseArg_skipped parsedArgs arg :
  String.prefix "--" arg = false \/
  has_char "="%char arg = false \/
  (exists rest, arg = ("--=" ++ rest)%string) \/
  (exists key tail, arg = ("--" ++ key ++ "=" ++ tail)%string /\
                    has_char "="%char key = false /\ cut_off tail) ->
  parseArg parsedArgs arg = parsedArgs.
Proof.
  intros [Hp|[Hc|[[rest ->]|(key & tail & -> & Hk & Htail)]]]; unfold parseArg.
  - by rewrite Hp.
  - destruct (String.prefix "--" arg); [|done].
    assert (has_char "="%char (substring2 arg) = false) as Hs.
    { destruct arg as [|a [|b arg]]; try done. simpl in *.
      apply orb_false_iff in Hc as [_ Hc]. by apply orb_false_iff in Hc as [_ Hc]. }
    by rewrite (split_on_no_sep _ _ Hs).
  - change (substring2 ("--=" ++ rest)%string) with (String "="%char rest).
    destruct (String.prefix "--" _); [|done]. simpl split_on.
    by destruct (split_on "=" rest).
  - change (substring2 ("--" ++ key ++ "=" ++ tail)%string)
      with (key ++ String "="%char tail)%string.
    destruct (String.prefix "--" _); [|done].
    rewrite split_on_app by done.
    destruct Htail as [->|[rest ->]]; simpl split_on; cbn iota.
    + by rewrite andb_false_r.
    + destruct (split_on "=" rest); by rewrite andb_false_r.
Qed.

(** ** Discovery feeding the engine *)

Lemma normalizeFilePath_NoDup cache disk fileList root :
  NoDup (snd (normalizeFilePath cache disk fileList root)) /\
  (forall p, p ∈ snd (normalizeFilePath cache disk fileList root) -> p ∈ fileList).
Proof.
  rewrite normalizeFilePath_snd. cbv zeta.
  set (bin := filter (fun f => filterBinaryFile f = true) fileList).
  destruct (filter_unique_spec bin) as (Hnd & Hmem & _).
  assert (Hin : forall p, p ∈ filter (fun f => filterEmptyFile f = true)
                                (filter_indexed filterUnique bin) -> p ∈ fileList).
  { intros p Hp. apply list_elem_of_filter in Hp as [_ Hp].
    apply Hmem in Hp. subst bin. by apply list_elem_of_filter in Hp as [_ Hp]. }
  destruct (truthy root).
  - split; [by do 2 apply NoDup_filter|].
    intros p Hp. apply list_elem_of_filter in Hp as [_ Hp]. by apply Hin.
  - split; [by apply NoDup_filter|done].
Qed.

(** The list a mode reads its candidates from. *)
Lemma listFiles_Some cache disk globResult status root mode globPattern l :
  snd (listFiles cache disk globResult status root mode globPattern) = Some l ->
  exists raw,
    l = snd (normalizeFilePath cache disk raw (Some root)) /\
    (mode = ModeGlob /\ truthy globPattern = true /\ raw = globResult \/
     mode = ModeChanged /\
       raw = (modified status ++ created status ++ not_added status)%list \/
     mode = ModeStaged /\ raw = staged status).
Proof.
  unfold listFiles. destruct mode.
  - destruct (truthy globPattern) eqn:Hg; [|discriminate].
    destruct (normalizeFilePath cache disk globResult (Some root)) as [c r] eqn:E.
    intros [= <-]. exists globResult. split; [by rewrite E|]. by left.
  - destruct (normalizeFilePath cache disk _ (Some root)) as [c r] eqn:E.
    intros [= <-]. eexists. split; [by rewrite E|]. right. by left.
  - destruct (normalizeFilePath cache disk _ (Some root)) as [c r] eqn:E.
    intros [= <-]. eexists. split; [by rewrite E|]. right. by right.
  - discriminate.
Qed.


(** X26. A forced start without a file list, fed with what [listFiles]
    returns for the same mode and pattern, creates the session whenever
    that list is not empty, and the session lists each discovered path
    once: its paths are the listing, without repetition. *)
Theorem start_from_listing st now newId cache disk globResult status projectRoot
    mode globPattern limit x l :
  snd (listFiles cache disk globResult status projectRoot mode globPattern)
    = Some (x :: l) ->
  exists st' s,
    start_review_session st now newId
      (snd (listFiles cache disk globResult status projectRoot mode globPattern))
      projectRoot mode globPattern None limit (Some true) = (st', Created s) /\
    map path (files s) = x :: l /\
    NoDup (map path (files s)).
Proof.
  intros Hl. pose proof Hl as Hl'.
  apply listFiles_Some in Hl' as (raw & Hraw & Hmode).
  assert (Hnd : NoDup (x :: l)).
  { rewrite Hraw. apply normalizeFilePath_NoDup. }
  assert (Hpaths : forall l0, map path (map newReviewFile l0) = l0).
  { induction l0 as [|y l0 IH]; [done|]. simpl. by rewrite IH. }
  destruct Hmode as [(-> & Hg & _)|[(-> & _)|(-> & _)]];
    unfold start_review_session; rewrite Hl; rewrite ?Hg;
    do 2 eexists; (split; [reflexivity|]);
    (split; [exact (Hpaths (x :: l))|]);
    change (NoDup (map path (map newReviewFile (x :: l))));
    rewrite (Hpaths (x :: l)); exact Hnd.
Qed.

End Toolkit.

(** * The model at work: concrete runs

    The runs below use [char_encode] (one token per character) for the
    tokenizer and [slash_join] for [path.join]. *)

Lemma getFileContent_isEnded_iff_witness :
  getFileContentByPath slash_join ten_line_disk "/repo" "ten.txt" = Some ten_lines /\
  exists c,
    getFileContent char_encode slash_join ten_line_disk "/repo" "ten.txt" 35 (Some 8)
      = ReadOk c /\
    (isEnded c = true <-> endLine c = Z.of_nat (length (split_lines ten_lines))).
Proof.
  split; [reflexivity|].
  apply (getFileContent_isEnded_iff char_encode slash_join ten_line_disk
           "/repo" "ten.txt" 35 (Some 8) ten_lines).
  reflexivity.
Defined.

Lemma follow_up_overshoots_witness :
  getFileContentByPath slash_join ten_line_disk "/repo" "ten.txt" = Some ten_lines /\
  countToken_lines char_encode ten_lines = replicate 10 10 /\
  exists c,
    follow_up char_encode slash_join ten_line_disk "/repo" "ten.txt" 35 2 = ReadOk c /\
    endLine c = 11 /\ isEnded c = false.
Proof.
  split; [reflexivity|]. split; [reflexivity|].
  apply (proj2 (proj2 (follow_up_overshoots char_encode slash_join ten_line_disk
                         "/repo" "ten.txt" ten_lines eq_refl eq_refl)) O).
Defined.

Lemma get_next_review_file_spec_witness :
  resolve_key (run char_encode slash_join empty_store [start_ab]) "/p" = Some "s1" /\
  get_next_review_file (run char_encode slash_join empty_store [start_ab]) "/p"
    = NextFile "a.ts".
Proof.
  split; [reflexivity|].
  refine (proj1 (proj2 (get_next_review_file_spec
                          (run char_encode slash_join empty_store [start_ab])
                          "/p" "s1" _ eq_refl eq_refl) _)
            O (newReviewFile "a.ts") eq_refl eq_refl _).
  - simpl. lia.
  - intros j g Hj. lia.
Defined.

Lemma totalTokenCount_is_sum_witness :
  let ops := [start_ab; submit_a "t1" "looks good"; submit_a "t2" "ok"] in
  let st := run char_encode slash_join empty_store ops in
  trace char_encode slash_join empty_store ops st /\
  exists s, sessions st !! "s1" = Some s /\
            totalTokenCount s = sumTokenCounts (files s) /\
            sumTokenCounts (files s) = 2.
Proof.
  intros ops st.
  assert (Htr : trace char_encode slash_join empty_store ops st).
  { apply trace_run. vm_compute. auto. }
  split; [exact Htr|].
  eexists. split; [vm_compute; reflexivity|].
  split; [|vm_compute; reflexivity].
  apply (proj1 (totalTokenCount_is_sum char_encode slash_join ops st Htr) "s1").
  vm_compute. reflexivity.
Defined.

Lemma start_review_session_resumes_witness :
  let st := run char_encode slash_join empty_store
              [start_ab; submit_a "t1" "looks good"] in
  getSessionIdForProject st "/p" = Some "s1" /\
  exists st' s',
    start_review_session st "t2" "s2" None "/p" ModeResume None None None None
      = (st', Resumed s') /\
    getSessionIdForProject st' "/p" = Some "s1" /\
    currentSessionTokenCount s' = 0 /\
    totalTokenCount s' = 10.
Proof.
  intros st. split; [reflexivity|].
  destruct (start_review_session_resumes st "t2" "s2" None "/p" ModeResume
              None None None None "s1" _ eq_refl eq_refl eq_refl eq_refl eq_refl)
    as (st' & s' & Hcall & _ & Hidx & _ & _ & _ & Hcur & Htot & _).
  exists st', s'. split; [exact Hcall|]. split; [exact Hidx|].
  split; [exact Hcur|]. rewrite Htot. reflexivity.
Defined.

Lemma complete_review_session_spec_witness :
  let ops := [start_ab; submit_a "t1" "ok"; submit_b "t2" "ok"; OpComplete "t3" "s1"] in
  let st := run char_encode slash_join empty_store ops in
  trace char_encode slash_join empty_store ops st /\
  resolve_key st "/p" = Some "s1" /\
  exists st' s',
    complete_review_session st "t4" "/p" = (st', Completed s') /\
    completed s' = true /\ updatedAt s' = "t4".
Proof.
  intros ops st.
  assert (Htr : trace char_encode slash_join empty_store ops st).
  { apply trace_run. vm_compute. auto. }
  split; [exact Htr|]. split; [reflexivity|].
  destruct (proj2 (complete_review_session_spec char_encode slash_join ops st
                     "t4" "/p" "s1" _ Htr eq_refl eq_refl))
    as (st' & s' & Hcall & _ & Hs' & Hc & _).
  { apply pendingCount_zero. reflexivity. }
  exists st', s'. split; [exact Hcall|]. split; [exact Hc|].
  rewrite Hs'. reflexivity.
Defined.

(** C5, as the specification words it, fails: completing an already
    completed session is not a no-op.  The call succeeds, but it saves
    the session again and the stored record gets a new [updatedAt]. *)
Lemma complete_again_rewrites_record :
  let st := run char_encode slash_join empty_store
              [start_ab; submit_a "t1" "ok"; submit_b "t2" "ok"; OpComplete "t3" "s1"] in
  (completed <$> getSession st "s1") = Some true /\
  (exists s', snd (complete_review_session st "t4" "s1") = Completed s') /\
  getSession (fst (complete_review_session st "t4" "s1")) "s1" <> getSession st "s1" /\
  fst (complete_review_session st "t4" "s1") <> st.
Proof.
  intros st. split; [reflexivity|]. split; [eexists; reflexivity|].
  assert (Hne : getSession (fst (complete_review_session st "t4" "s1")) "s1"
                <> getSession st "s1").
  { intros H. apply (f_equal (fmap updatedAt)) in H. vm_compute in H. discriminate. }
  split; [exact Hne|]. intros H. apply Hne. by rewrite H.
Qed.

Lemma tokenCount_set_by_each_submission_witness :
  let ops := [start_ab; submit_a "t1" "looks good"] in
  let st := run char_encode slash_join empty_store ops in
  let o := submit_a "t2" "" in
  trace char_encode slash_join empty_store ops st /\
  fresh_id st o /\
  submit_target st o = Some ("s1", O) /\
  exists s' f',
    sessions (fst (step char_encode slash_join st o)) !! "s1" = Some s' /\
    files s' !! O = Some f' /\
    tokenCount f' = Some (submit_tokens char_encode slash_join o).
Proof.
  intros ops st o.
  assert (Htr : trace char_encode slash_join empty_store ops st).
  { apply trace_run. vm_compute. auto. }
  split; [exact Htr|]. split; [exact I|]. split; [reflexivity|].
  destruct (tokenCount_set_by_each_submission char_encode slash_join ops st o
              "s1" _ O _ Htr I eq_refl eq_refl)
    as (s' & f' & Hs' & Hf' & _ & Hset & _).
  exists s', f'. split; [exact Hs'|]. split; [exact Hf'|].
  apply Hset. reflexivity.
Defined.

(** C6, as the specification words it, fails: a second submission for the
    same file assigns [tokenCount] again, and with a shorter review the
    value goes down. *)
Lemma resubmission_lowers_tokenCount :
  let st1 := run char_encode slash_join empty_store
               [start_ab; submit_a "t1" "looks good"] in
  let st2 := fst (step char_encode slash_join st1 (submit_a "t2" "")) in
  stored_tokenCount st1 "s1" O = Some (Some 10) /\
  stored_tokenCount st2 "s1" O = Some (Some 0).
Proof. split; vm_compute; reflexivity. Qed.

Lemma submit_file_review_unreadable_witness :
  let st := run char_encode slash_join empty_store [start_ab] in
  char_encode "" = [] /\
  resolve_key st "/p" = Some "s1" /\
  no_disk (slash_join "/p" "b.ts") = None /\
  exists st' s' f',
    (exists exceeds,
       submit_file_review char_encode slash_join st no_disk "t1" "/p" "b.ts"
         "looks good" None = (st', Submitted s' exceeds)) /\
    files s' !! 1%nat = Some f' /\
    reviewed f' = true /\
    tokenCount f' = Some 10.
Proof.
  intros st. split; [reflexivity|]. split; [reflexivity|]. split; [reflexivity|].
  destruct (submit_file_review_unreadable char_encode slash_join st no_disk "t1"
              "/p" "b.ts" "looks good" None "s1" _
              eq_refl eq_refl eq_refl eq_refl)
    as [(st' & s' & exceeds & Hcall & Hupd) Hcost].
  { apply list_elem_of_lookup. exists 1%nat. reflexivity. }
  { reflexivity. }
  destruct (Hcost "looks good" None)
    as (st2 & s2 & i & f & f' & Hupd2 & _ & Hfind & Hf' & _ & Hrev & _ & Htok & _).
  rewrite Hupd in Hupd2. injection Hupd2 as <- <-.
  exists st', s', f'. split; [by exists exceeds|].
  injection Hfind as <- _. split; [exact Hf'|]. split; [exact Hrev|].
  rewrite Htok. reflexivity.
Defined.

Lemma duplicate_path_never_completed_witness :
  let st1 := fst (createSession empty_store "t0" "s1" "/p" ["a.ts"; "a.ts"] 100) in
  let ops := [submit_a "t1" "ok"; submit_a "t2" "ok"; OpComplete "t3" "/p"] in
  let st := run char_encode slash_join st1 ops in
  trace char_encode slash_join st1 ops st /\
  exists s,
    getSession st "s1" = Some s /\ completed s = false /\
    (0 < pendingCount (files s))%nat /\
    fst (complete_review_session st "t4" "/p") = st.
Proof.
  intros st1 ops st.
  assert (Htr : trace char_encode slash_join st1 ops st).
  { apply trace_run. vm_compute. auto. }
  split; [exact Htr|].
  destruct (duplicate_path_never_completed char_encode slash_join empty_store
              "t0" "s1" "/p" ["a.ts"; "a.ts"] 100 0%nat 1%nat "a.ts" ops st
              empty_store_wf (le_n 1) eq_refl eq_refl Htr)
    as (s & fj & Hs & _ & _ & _ & Hc & _ & Hcomplete).
  destruct (Hcomplete "t4" "/p" eq_refl) as [Hcall Hpos].
  exists s. split; [exact Hs|]. split; [exact Hc|]. split; [exact Hpos|].
  rewrite Hcall. reflexivity.
Defined.

Lemma submit_file_review_unknown_path_witness :
  let st := run char_encode slash_join empty_store [start_ab] in
  resolve_key st "s1" = Some "s1" /\
  submit_file_review char_encode slash_join st no_disk "t1" "s1" "zzz.ts"
    "looks good" None = (st, Failure UpdateFailed).
Proof.
  intros st. split; [reflexivity|].
  refine (proj1 (submit_file_review_unknown_path char_encode slash_join st no_disk
                   "t1" "s1" "zzz.ts" "looks good" None "s1" _ eq_refl eq_refl _)).
  apply (bool_decide_unpack _). vm_compute. exact I.
Defined.

(** ** Further runs *)

Lemma getFileContent_without_budget_witness :
  getFileContentByPath slash_join ten_line_disk "/repo" "ten.txt" = Some ten_lines /\
  getFileContent char_encode slash_join ten_line_disk "/repo" "ten.txt" 0 (Some 3)
    = ReadOk {| content := ""; endLine := 3; isEnded := false |}.
Proof.
  split; [reflexivity|].
  apply (getFileContent_without_budget char_encode slash_join ten_line_disk
           "/repo" "ten.txt" 0 (Some 3) ten_lines eq_refl).
  lia.
Defined.

Lemma getFileContent_advances_witness :
  getFileContentByPath slash_join ten_line_disk "/repo" "ten.txt" = Some ten_lines /\
  exists c,
    getFileContent char_encode slash_join ten_line_disk "/repo" "ten.txt" 35 (Some 4)
      = ReadOk c /\
    4 < endLine c.
Proof.
  split; [reflexivity|].
  destruct (getFileContent_advances char_encode slash_join ten_line_disk
              "/repo" "ten.txt" 35 (Some 4) ten_lines eq_refl)
    as (c & Hc & Hlt & _); [lia|].
  exists c. split; [exact Hc|exact Hlt].
Defined.

Lemma getFileContent_reaches_budget_witness :
  exists c,
    getFileContent char_encode slash_join ten_line_disk "/repo" "ten.txt" 35
      (Some (Z.of_nat 0)) = ReadOk c /\
    endLine c = 4 /\
    exists m : nat,
      endLine c = Z.of_nat m /\
      35 <= sum_tokens (tokens_between (countToken_lines char_encode ten_lines) 0 m).
Proof.
  eexists. split; [reflexivity|]. split; [reflexivity|].
  destruct (getFileContent_reaches_budget char_encode slash_join ten_line_disk
              "/repo" "ten.txt" 35 O ten_lines _ eq_refl ltac:(lia) eq_refl)
    as (m & Hm & _ & Hsum & _).
  { vm_compute. discriminate. }
  exists m. split; [exact Hm|exact Hsum].
Defined.

Lemma getFileContent_tail_witness :
  sum_tokens (drop 8 (countToken_lines char_encode ten_lines)) < 35 /\
  getFileContent char_encode slash_join ten_line_disk "/repo" "ten.txt" 35 (Some 8)
    = ReadOk {| content := join_lines (drop 8 (split_lines ten_lines));
                endLine := 11; isEnded := false |}.
Proof.
  split; [vm_compute; reflexivity|].
  apply (getFileContent_tail char_encode slash_join ten_line_disk
           "/repo" "ten.txt" 35 (Some 8) 8%nat ten_lines eq_refl eq_refl).
  - vm_compute. lia.
  - vm_compute. reflexivity.
Defined.

Lemma getFileContent_past_end_witness :
  getFileContent char_encode slash_join ten_line_disk "/repo" "ten.txt" 35 (Some 11)
    = ReadOk {| content := ""; endLine := 12; isEnded := false |}.
Proof.
  apply (getFileContent_past_end char_encode slash_join ten_line_disk
           "/repo" "ten.txt" 35 11 ten_lines eq_refl).
  - lia.
  - vm_compute. discriminate.
Defined.

Lemma getFileContent_negative_start_witness :
  getFileContent char_encode slash_join ten_line_disk "/repo" "ten.txt" 35 (Some (-3))
    = ReadOk {| content := "aaaaaaaaaa"; endLine := -2; isEnded := false |}.
Proof.
  apply (getFileContent_negative_start char_encode slash_join ten_line_disk
           "/repo" "ten.txt" 35 3%nat ten_lines "aaaaaaaaaa" eq_refl).
  - lia.
  - vm_compute. lia.
  - reflexivity.
Defined.

Lemma getFileContent_chunks_join_witness :
  exists c1 c2,
    getFileContent char_encode slash_join ten_line_disk "/repo" "ten.txt" 35
      (Some (Z.of_nat 0)) = ReadOk c1 /\
    getFileContent char_encode slash_join ten_line_disk "/repo" "ten.txt" 35
      (Some (endLine c1)) = ReadOk c2 /\
    (content c1 ++ String "010"%char (content c2))%string =
      join_lines (slice (split_lines ten_lines) (Some (Z.of_nat 0)) (endLine c2)).
Proof.
  do 2 eexists. split; [reflexivity|]. split; [reflexivity|].
  refine (proj1 (getFileContent_chunks_join char_encode slash_join ten_line_disk
                   "/repo" "ten.txt" 35 O ten_lines _ _ eq_refl _ eq_refl _ eq_refl)).
  - lia.
  - vm_compute. reflexivity.
Defined.

Lemma session_identity_kept_witness :
  let st := run char_encode slash_join empty_store [start_ab] in
  let ops := [submit_a "t1" "ok"; OpComplete "t2" "s1"; submit_b "t3" "fine"] in
  trace char_encode slash_join st ops (run char_encode slash_join st ops) /\
  exists s',
    getSession (run char_encode slash_join st ops) "s1" = Some s' /\
    map path (files s') = ["a.ts"; "b.ts"] /\
    tokenLimit s' = 100.
Proof.
  intros st ops.
  assert (Htr : trace char_encode slash_join st ops (run char_encode slash_join st ops)).
  { apply trace_run. vm_compute. auto. }
  split; [exact Htr|].
  assert (Hwf : store_wf st).
  { apply (trace_store_wf char_encode slash_join empty_store [start_ab] st);
      [|apply empty_store_wf]. apply trace_run. vm_compute. auto. }
  destruct (session_identity_kept char_encode slash_join st ops _ "s1" _
              Htr Hwf eq_refl)
    as (s' & Hs' & _ & _ & _ & Hlim & Hpaths & _).
  exists s'. split; [exact Hs'|]. split; [exact Hpaths|exact Hlim].
Defined.

Lemma progress_is_monotone_witness :
  let st := run char_encode slash_join empty_store [start_ab; submit_a "t1" "ok"] in
  let ops := [OpStart "t2" "s2" None "/p" ModeResume None None None None;
              submit_b "t3" "fine"] in
  trace char_encode slash_join st ops (run char_encode slash_join st ops) /\
  exists s' f',
    getSession (run char_encode slash_join st ops) "s1" = Some s' /\
    files s' !! O = Some f' /\ path f' = "a.ts" /\ reviewed f' = true.
Proof.
  intros st ops.
  assert (Htr : trace char_encode slash_join st ops (run char_encode slash_join st ops)).
  { apply trace_run. vm_compute. auto. }
  split; [exact Htr|].
  assert (Hwf : store_wf st).
  { apply (trace_store_wf char_encode slash_join empty_store
             [start_ab; submit_a "t1" "ok"] st); [|apply empty_store_wf].
    apply trace_run. vm_compute. auto. }
  destruct (progress_is_monotone char_encode slash_join st ops _ "s1" _
              Htr Hwf eq_refl)
    as (s' & Hs' & _ & Hrev & _).
  destruct (Hrev O _ eq_refl eq_refl) as (f' & Hf' & Hp & Hr).
  exists s', f'. split; [exact Hs'|]. split; [exact Hf'|]. split; [exact Hp|exact Hr].
Defined.

Lemma counts_never_negative_witness :
  let ops := [start_ab; submit_a "t1" "looks good"; submit_a "t2" ""] in
  let st := run char_encode slash_join empty_store ops in
  trace char_encode slash_join empty_store ops st /\
  exists s, getSession st "s1" = Some s /\
            0 <= totalTokenCount s /\ 0 <= currentSessionTokenCount s.
Proof.
  intros ops st.
  assert (Htr : trace char_encode slash_join empty_store ops st).
  { apply trace_run. vm_compute. auto. }
  split; [exact Htr|].
  destruct (counts_never_negative char_encode slash_join ops st "s1" _ Htr eq_refl)
    as (Ht & Hc & _).
  eexists. split; [reflexivity|]. split; [exact Ht|exact Hc].
Defined.

Lemma refusals_write_nothing_witness :
  let st := run char_encode slash_join empty_store [start_ab] in
  is_success (snd (step char_encode slash_join st (OpComplete "t1" "s1"))) = false /\
  fst (step char_encode slash_join st (OpComplete "t1" "s1")) = st.
Proof.
  intros st. split; [reflexivity|].
  apply (refusals_write_nothing char_encode slash_join st (OpComplete "t1" "s1")).
  reflexivity.
Defined.

Lemma exceeds_flag_matches_next_witness :
  let st := run char_encode slash_join empty_store
              [OpStart "t0" "s1" None "/p" ModeGlob None (Some ["a.ts"; "b.ts"])
                 (Some 5) None] in
  exists st' s',
    submit_file_review char_encode slash_join st no_disk "t1" "/p" "a.ts"
      "looks good" None = (st', Submitted s' true) /\
    is_limit_status (get_next_review_file st' "/p") = true.
Proof.
  intros st. do 2 eexists. split; [reflexivity|].
  refine (exceeds_flag_matches_next char_encode slash_join st no_disk "t1" "/p"
            "a.ts" "looks good" None _ _ true _ eq_refl).
  apply (trace_store_wf char_encode slash_join empty_store
           [OpStart "t0" "s1" None "/p" ModeGlob None (Some ["a.ts"; "b.ts"])
              (Some 5) None] st); [|apply empty_store_wf].
  apply trace_run. vm_compute. auto.
Defined.


Lemma start_review_session_creates_witness :
  let st := run char_encode slash_join empty_store [start_ab] in
  getSession st "s2" = None /\
  exists st' s,
    start_review_session st "t1" "s2" None "/p" ModeGlob None
      (Some ["c.ts"; "d.ts"]) None (Some true) = (st', Created s) /\
    getSessionIdForProject st' "/p" = Some "s2" /\
    (exists old, getSession st' "s1" = Some old) /\
    get_next_review_file st' "s2" = NextFile "c.ts".
Proof.
  intros st. split; [reflexivity|].
  destruct (start_review_session_creates st "t1" "s2" None "/p" ModeGlob None
              "c.ts" ["d.ts"] None (Some true))
    as (st' & s & Hcall & _ & Hidx & Hold & _ & _ & _ & _ & _ & _ & _ & Hnext).
  - left. reflexivity.
  - reflexivity.
  - discriminate.
  - exists st', s. split; [exact Hcall|]. split; [exact Hidx|].
    split; [eexists; apply Hold; reflexivity|exact Hnext].
Defined.

Lemma review_each_then_complete_witness :
  store_wf empty_store /\ NoDup ["a.ts"; "b.ts"] /\
  exists st3 s,
    complete_review_session
      (run char_encode slash_join
         (fst (createSession empty_store "t0" "s1" "/p" ["a.ts"; "b.ts"] 5))
         (submit_each no_disk "t1" "s1" "looks good" None ["a.ts"; "b.ts"]))
      "t2" "s1" = (st3, Completed s) /\
    completed s = true.
Proof.
  assert (Hnd : NoDup ["a.ts"; "b.ts"]).
  { apply (bool_decide_unpack _). vm_compute. exact I. }
  split; [apply empty_store_wf|]. split; [exact Hnd|].
  destruct (review_each_then_complete char_encode slash_join empty_store "t0" "s1"
              "/p" ["a.ts"; "b.ts"] 5 no_disk "t1" "looks good" None "t2"
              empty_store_wf Hnd)
    as (st3 & s & Hcall & Hc & _).
  exists st3, s. split; [exact Hcall|exact Hc].
Defined.

Lemma submitted_file_not_handed_out_again_witness :
  let st := run char_encode slash_join empty_store [start_ab] in
  let submitted :=
    submit_file_review char_encode slash_join st no_disk "t1" "s1" "a.ts" "ok" None in
  let ops := [OpNext "s1"; OpStart "t2" "s2" None "/p" ModeResume None None None None] in
  trace char_encode slash_join (fst submitted) ops
    (run char_encode slash_join (fst submitted) ops) /\
  get_next_review_file (run char_encode slash_join (fst submitted) ops) "/p"
    <> NextFile "a.ts".
Proof.
  intros st submitted ops.
  assert (Htr : trace char_encode slash_join (fst submitted) ops
                  (run char_encode slash_join (fst submitted) ops)).
  { apply trace_run. vm_compute. auto. }
  split; [exact Htr|].
  refine (submitted_file_not_handed_out_again char_encode slash_join st no_disk "t1"
            "s1" "a.ts" "ok" None (fst submitted) _ _ ops _ "/p" _ eq_refl _ Htr
            eq_refl).
  - apply (trace_store_wf char_encode slash_join empty_store [start_ab] st);
      [|apply empty_store_wf]. apply trace_run. vm_compute. auto.
  - apply (bool_decide_unpack _). vm_compute. exact I.
Defined.

Lemma resume_twice_witness :
  let st := run char_encode slash_join empty_store
              [start_ab; submit_a "t1" "looks good"] in
  getSessionIdForProject st "/p" = Some "s1" /\
  start_review_session
    (fst (start_review_session st "t2" "s2" None "/p" ModeResume None None None None))
    "t3" "s3" None "/p" ModeChanged None None None None =
  start_review_session st "t3" "s3" None "/p" ModeChanged None None None None.
Proof.
  intros st. split; [reflexivity|].
  apply (resume_twice st "t2" "s2" None ModeResume None None None None
           "t3" "s3" None ModeChanged None None None None "/p" "s1" _
           eq_refl eq_refl eq_refl eq_refl eq_refl eq_refl).
Defined.

Lemma submit_then_get_file_review_witness :
  let st := run char_encode slash_join empty_store [start_ab] in
  resolve_key st "/p" = Some "s1" /\
  exists st' s' exceeds,
    submit_file_review_feedback char_encode slash_join st no_disk "t1" "/p" "b.ts"
      "please rename" "looks good" None = (st', Submitted s' exceeds) /\
    get_file_review st' "/p" "b.ts" =
      FileReviewed "b.ts" true "looks good" "please rename".
Proof.
  intros st. split; [reflexivity|].
  assert (Hwf : store_wf st).
  { apply (trace_store_wf char_encode slash_join empty_store [start_ab] st);
      [|apply empty_store_wf]. apply trace_run. vm_compute. auto. }
  destruct (submit_then_get_file_review char_encode slash_join st no_disk "t1" "/p"
              "b.ts" "please rename" "looks good" None "s1" _ 1%nat _
              Hwf eq_refl eq_refl eq_refl)
    as (st' & s' & exceeds & Hcall & Hread).
  exists st', s', exceeds. split; [exact Hcall|exact Hread].
Defined.


Lemma ignore_patterns_cached_witness :
  let cache1 :=
    fst (normalizeFilePath slash_join dot_extname png_only blank_trim exact_ignores
           None gitignore_disk ["a.ts"; "b.ts"; "logo.png"] (Some "/repo")) in
  truthy (Some "/repo") = true /\
  snd (normalizeFilePath slash_join dot_extname png_only blank_trim exact_ignores
         cache1 no_disk ["b.ts"; "a.ts"; "b.ts"] (Some "/repo")) = ["a.ts"].
Proof.
  intros cache1. split; [reflexivity|]. subst cache1.
  rewrite (proj1 (ignore_patterns_cached slash_join dot_extname png_only blank_trim
                    exact_ignores None gitignore_disk ["a.ts"; "b.ts"; "logo.png"]
                    "/repo" no_disk eq_refl) ["b.ts"; "a.ts"; "b.ts"]).
  vm_compute. reflexivity.
Defined.


Lemma parseArg_skipped_witness :
  has_char "="%char "--verbose" = false /\
  parseArg (parseArgs ["node"; "index.js"; "--session-dir=/a"]) "--verbose"
  = parseArgs ["node"; "index.js"; "--session-dir=/a"].
Proof.
  split; [reflexivity|].
  apply parseArg_skipped. right. left. reflexivity.
Defined.


Lemma start_from_listing_witness :
  exists st' s,
    start_review_session empty_store "t0" "s1"
      (snd (listFiles slash_join dot_extname png_only blank_trim exact_ignores
              None no_disk ["a.ts"; "b.ts"; "a.ts"]
              (mkGitStatus [] [] [] []) "/repo" ModeGlob (Some "**/*")))
      "/repo" ModeGlob (Some "**/*") None None (Some true) = (st', Created s) /\
    map path (files s) = ["a.ts"; "b.ts"].
Proof.
  destruct (start_from_listing slash_join dot_extname png_only blank_trim
              exact_ignores empty_store "t0" "s1" None no_disk
              ["a.ts"; "b.ts"; "a.ts"] (mkGitStatus [] [] [] []) "/repo" ModeGlob
              (Some "**/*") None "a.ts" ["b.ts"])
    as (st' & s & Hcall & Hpaths & _).
  - vm_compute. reflexivity.
  - exists st', s. split; [exact Hcall|exact Hpaths].
Defined.
